(** * spiffy/migration: the migration engine and its run report

    A shallow embedding of the [migration] package of spiffy: the
    [Logger] (migration/logger.go), the [Statements] body
    (migration/body_statements.go) and [Connection.ExecInTx] (package
    spiffy) are translated from the Go source; [Step.Apply],
    [Group.Apply] and the existence guards, whose files are not part of
    the tree, are modelled from the specification.  The second part
    adds, from the source, how a Connection and a Config build the
    address of the database, how a Connection opens, and the listener
    of diagnostics events (module [spiffy]).

    Conventions.
    - A Go [string] is a [string] (a sequence of bytes); [len] is
      [String.length].
    - A Go [int] is a 64-bit two's complement integer: a [Z] with the
      wrap-around written out ([int_add]).
    - A Go [error] is [option ErrVal]: [None] is [nil].
    - A pointer that may be [nil] is an [option]; the object behind a
      non-nil pointer is threaded through the calls that mutate it.
    - A nil dereference is the outcome [Panic] of the [result] type.
    - What the code asks of other packages (go-logger, fmt, utf8,
      database/sql) is a field of the class [Env]. *)

From Stdlib Require Import ZArith List String Ascii Bool Lia.
Import ListNotations.

Local Open Scope string_scope.
Local Open Scope list_scope.
Local Open Scope Z_scope.

Infix "+s+" := String.append (right associativity, at level 60).

(** ** Go values *)

(** [int]: 64-bit wrap-around addition. *)
Definition int_min : Z := - 2 ^ 63.
Definition int_max : Z := 2 ^ 63 - 1.
Definition int_wrap (z : Z) : Z := (z + 2 ^ 63) mod 2 ^ 64 - 2 ^ 63.
Definition int_add (x y : Z) : Z := int_wrap (x + y).

(** [*sql.Tx]: [None] is the nil transaction. *)
Definition Tx := option nat.

(** go-logger's [AnsiColor] constants used by the package. *)
Inductive AnsiColor :=
| ColorBlue | ColorYellow | ColorRed | ColorGreen | ColorLightGreen
| ColorLightBlack | ColorLightWhite.

(** Outcome of a call that may dereference nil. *)
Inductive result (A : Type) :=
| Ret (a : A)
| Panic.
Arguments Ret {A} a.
Arguments Panic {A}.

Definition bind {A B} (r : result A) (k : A -> result B) : result B :=
  match r with
  | Ret a => k a
  | Panic => Panic
  end.

Notation "'do' x <- r ; k" := (bind r (fun x => k))
  (at level 10, x pattern, r at level 100, k at level 200).

(** Modelled from the spec: the introspection queries of the existence
    guards (guard.go is missing), one per kind of schema object, keyed
    by the names the guard was built with. *)
Inductive Introspection :=
| TableQuery (name : string)
| ColumnQuery (table column : string)
| ConstraintQuery (name : string)
| IndexQuery (table name : string)
| RoleQuery (name : string).

(** The collaborators of the package. *)
Class Env := {
  (** [*logger.Logger], the sink a [Logger] writes to. *)
  OutputLogger : Type;
  (** [interface{}] arguments handed to [fmt] and to the driver. *)
  Any : Type;
  (** the non-nil values of [error], with their [Error()] method. *)
  ErrVal : Type;
  ErrorString : ErrVal -> string;
  (** the output writer's [Colorize] (the identity for a writer that is
      no text formatter). *)
  WriterColorize : OutputLogger -> string -> AnsiColor -> string;
  (** [fmt.Sprintf] on a caller-supplied format. *)
  Sprintf : string -> list Any -> string;
  (** [utf8.RuneCountInString], the width [fmt] pads to. *)
  RuneCountInString : string -> nat;
  (** the database behind a connection. *)
  DB : Type;
  (** [Invocation.Exec]: run one statement under a transaction. *)
  InvocationExec :
    Tx -> string -> string -> list Any -> DB -> DB * option ErrVal;
  (** [QueryIsEmpty] (spec §6): run a catalog query, tell whether it
      returned zero rows. *)
  QueryIsEmpty : Introspection -> Tx -> DB -> bool * option ErrVal
}.

Section Model.
Context {E : Env}.

Definition error := option ErrVal.

(** ** The Migration interface *)

(** Modelled from the spec: the [Migration] interface (its declaration
    is missing), as the Logger uses it: [Label()] and [Parent()].  The
    parent chain is finite: the tree is built once, top-down, and a
    root has no parent (§3). *)
#[local] Set Warnings "-register-all".
Inductive Migration :=
| migration (label : string) (parent : option Migration).

Definition Label (m : Migration) : string :=
  match m with migration label _ => label end.

Definition Parent (m : Migration) : option Migration :=
  match m with migration _ parent => parent end.

(** ** logger.go *)

(** [Event], the flag of every message of the package. *)
Definition Event : string := "db.migration".

(** [logger.Messagef(flag, format).WithFlagColor(color)]. *)
Record Message := {
  msg_flag : string;
  msg_format : string;
  msg_flag_color : AnsiColor
}.

Definition Messagef (flag format : string) : Message :=
  {| msg_flag := flag; msg_format := format; msg_flag_color := ColorLightWhite |}.

Definition WithFlagColor (m : Message) (c : AnsiColor) : Message :=
  {| msg_flag := msg_flag m; msg_format := msg_format m; msg_flag_color := c |}.

(** Everything triggered on output loggers so far, oldest first:
    one entry per [SyncTrigger]. *)
Definition Trace := list (OutputLogger * Message).

Definition SyncTrigger (o : OutputLogger) (m : Message) (tr : Trace) : Trace :=
  tr ++ [(o, m)].

Record Logger := {
  Output : option OutputLogger;
  Phase : string;
  Result : string;
  applied : Z;
  skipped : Z;
  failed : Z
}.

(** [l.colorize] reads nothing of [l] but [l.Output]; it is reached
    only from [write], below the nil check of [l.Output], and so are
    [colorizeFixedWidthLeftAligned] and [renderStack]: the three take
    the output that check found, in place of the receiver. *)
Definition colorize (o : OutputLogger) (text : string) (color : AnsiColor) : string :=
  WriterColorize o text color.

Fixpoint spaces (n : nat) : string :=
  match n with
  | O => EmptyString
  | S n' => String " " (spaces n')
  end.

(** [fmt.Sprintf("%-<width>s", text)]: pad on the right to [width] runes. *)
Definition SprintfLeftAligned (width : nat) (text : string) : string :=
  text +s+ spaces (width - RuneCountInString text).

Definition colorizeFixedWidthLeftAligned
    (o : OutputLogger) (text : string) (color : AnsiColor) (width : nat) : string :=
  colorize o (SprintfLeftAligned width text) color.

(** [strings.TrimPrefix]. *)
Definition TrimPrefix (s prefix : string) : string :=
  if String.prefix prefix s
  then substring (String.length prefix) (String.length s - String.length prefix) s
  else s.

(** The loop of [renderStack], entered with a non-nil cursor. *)
Fixpoint renderStackLoop (stackSeparator : string) (cursor : Migration)
    (renderedStack : string) : string :=
  match cursor with
  | migration label parent =>
      let renderedStack :=
        if (0 <? String.length label)%nat
        then stackSeparator +s+ label +s+ renderedStack
        else renderedStack in
      match parent with
      | None => renderedStack
      | Some cursor => renderStackLoop stackSeparator cursor renderedStack
      end
  end.

Definition stackSeparator (o : OutputLogger) : string :=
  " " +s+ colorize o ">" ColorLightBlack +s+ " ".

Definition renderStack (o : OutputLogger) (m : Migration) (color : AnsiColor) : string :=
  let renderedStack :=
    match Parent m with
    | None => EmptyString
    | Some cursor => renderStackLoop (stackSeparator o) cursor EmptyString
    end in
  TrimPrefix renderedStack " ".

Definition resultColor (res : string) : AnsiColor :=
  if String.eqb res "skipped" then ColorYellow
  else if String.eqb res "failed" then ColorRed
  else ColorBlue.

Definition write (l : Logger) (m : Migration) (color : AnsiColor) (body : string)
    (tr : Trace) : Trace :=
  match Output l with
  | None => tr
  | Some o =>
      let buf :=
        colorizeFixedWidthLeftAligned o (Phase l) ColorBlue 5
        +s+ " " +s+ colorize o "--" ColorLightBlack
        +s+ " " +s+ colorizeFixedWidthLeftAligned o (Result l) (resultColor (Result l)) 5 in
      let stack := renderStack o m color in
      let buf :=
        if (0 <? String.length stack)%nat then buf +s+ " " +s+ stack else buf in
      let buf :=
        if (0 <? String.length body)%nat
        then buf +s+ " " +s+ colorize o "--" ColorLightBlack +s+ " " +s+ body
        else buf in
      SyncTrigger o (WithFlagColor (Messagef Event buf) ColorLightWhite) tr
  end.

Definition set_applied (l : Logger) : Logger :=
  {| Output := Output l; Phase := Phase l; Result := "applied";
     applied := int_add (applied l) 1; skipped := skipped l; failed := failed l |}.

Definition set_skipped (l : Logger) : Logger :=
  {| Output := Output l; Phase := Phase l; Result := "skipped";
     applied := applied l; skipped := int_add (skipped l) 1; failed := failed l |}.

Definition set_failed (l : Logger) : Logger :=
  {| Output := Output l; Phase := Phase l; Result := "failed";
     applied := applied l; skipped := skipped l; failed := int_add (failed l) 1 |}.

(** A call on the receiver [l] (nil is [None]) returns the receiver's
    new contents, the new trace and the Go return value. *)
Definition Applyf (l : option Logger) (m : Migration) (body : string) (args : list Any)
    (tr : Trace) : option Logger * Trace * error :=
  match l with
  | None => (None, tr, None)
  | Some l =>
      let l := set_applied l in
      (Some l, write l m ColorLightGreen (Sprintf body args) tr, None)
  end.

Definition Skipf (l : option Logger) (m : Migration) (body : string) (args : list Any)
    (tr : Trace) : option Logger * Trace * error :=
  match l with
  | None => (None, tr, None)
  | Some l =>
      let l := set_skipped l in
      (Some l, write l m ColorGreen (Sprintf body args) tr, None)
  end.

(** [err.Error()] on a nil [err] is a nil dereference. *)
Definition Error (l : option Logger) (m : Migration) (err : error)
    (tr : Trace) : result (option Logger * Trace * error) :=
  match l with
  | None => Ret (None, tr, err)
  | Some l =>
      let l := set_failed l in
      match err with
      | None => Panic
      | Some e => Ret (Some l, write l m ColorRed (ErrorString e) tr, err)
      end
  end.

(** ** The Connection (package spiffy) *)

(** What the collaborators were asked, oldest first: a statement handed
    to the driver (with the error it came back with), a Guard
    evaluated, an Invocable invoked. *)
Inductive Call :=
| CallExec (tx : Tx) (cacheLabel statement : string) (args : list Any) (err : error)
| CallGuard (step : Migration) (tx : Tx)
| CallInvocable (step : Migration) (tx : Tx).

(** A [*Connection]: the database behind it and the calls made
    through it. *)
Record Connection := {
  db : DB;
  calls : list Call
}.

Definition record (k : Call) (c : Connection) : Connection :=
  {| db := db c; calls := calls c ++ [k] |}.

(** [dbc.Invoke(tx).WithLabel(cacheLabel).Exec(statement, args...)]. *)
Definition ExecInTxWithCacheLabel (statement cacheLabel : string) (tx : Tx)
    (args : list Any) (dbc : Connection) : Connection * error :=
  let (d, err) := InvocationExec tx cacheLabel statement args (db dbc) in
  ({| db := d; calls := calls dbc ++ [CallExec tx cacheLabel statement args err] |}, err).

Definition ExecInTx (statement : string) (tx : Tx) (args : list Any)
    (dbc : Connection) : Connection * error :=
  ExecInTxWithCacheLabel statement statement tx args dbc.

(** ** body_statements.go *)

Definition bodyStatements := list string.

(** [bodyStatements.Invoke]: the named result [err] starts as nil. *)
Fixpoint Invoke (bs : bodyStatements) (c : Connection) (tx : Tx) : Connection * error :=
  match bs with
  | [] => (c, None)
  | step :: bs' =>
      let (c', err) := ExecInTx step tx [] c in
      match err with
      | Some _ => (c', err)
      | None => Invoke bs' c' tx
      end
  end.

(** ** Guards *)

(** Modelled from the spec: the Guard constructors of §3 (guard.go is
    missing).  A Guard reads the database and leaves it as it is. *)
Inductive Guard :=
| TableExists (name : string)
| TableNotExists (name : string)
| ColumnExists (table column : string)
| ColumnNotExists (table column : string)
| ConstraintExists (name : string)
| ConstraintNotExists (name : string)
| IndexExists (table name : string)
| IndexNotExists (table name : string)
| RoleExists (name : string)
| RoleNotExists (name : string)
| DynamicGuard (label : string) (predicate : Tx -> DB -> bool * error)
| Always.

(** Modelled from the spec: the reading of an introspection query by
    an [*Exists] guard (missing with guard.go): a row found means the
    object exists; a failed query is an error and never "should
    apply". *)
Definition exists_ (q : Introspection) (tx : Tx) (d : DB) : bool * error :=
  match QueryIsEmpty q tx d with
  | (_, Some e) => (false, Some e)
  | (empty, None) => (negb empty, None)
  end.

(** Modelled from the spec: the reading of the same query by the
    [*NotExists] guard (missing with guard.go): zero rows returned
    means the object does not exist. *)
Definition notExists (q : Introspection) (tx : Tx) (d : DB) : bool * error :=
  match QueryIsEmpty q tx d with
  | (_, Some e) => (false, Some e)
  | (empty, None) => (empty, None)
  end.

(** Modelled from the spec: the helpers the package's tests call
    (missing with guard.go). *)
Definition tableExists (tx : Tx) (tableName : string) (d : DB) : bool * error :=
  exists_ (TableQuery tableName) tx d.

Definition columnExists (tx : Tx) (tableName columnName : string) (d : DB)
    : bool * error :=
  exists_ (ColumnQuery tableName columnName) tx d.

Definition constraintExists (tx : Tx) (constraintName : string) (d : DB)
    : bool * error :=
  exists_ (ConstraintQuery constraintName) tx d.

Definition indexExists (tx : Tx) (tableName indexName : string) (d : DB)
    : bool * error :=
  exists_ (IndexQuery tableName indexName) tx d.

Definition roleExists (tx : Tx) (roleName : string) (d : DB) : bool * error :=
  exists_ (RoleQuery roleName) tx d.

(** Modelled from the spec: [Guard.Evaluate] of §3 and §4.1 (guard.go
    is missing). *)
Definition Evaluate (g : Guard) (tx : Tx) (d : DB) : bool * error :=
  match g with
  | TableExists name => tableExists tx name d
  | TableNotExists name => notExists (TableQuery name) tx d
  | ColumnExists table column => columnExists tx table column d
  | ColumnNotExists table column => notExists (ColumnQuery table column) tx d
  | ConstraintExists name => constraintExists tx name d
  | ConstraintNotExists name => notExists (ConstraintQuery name) tx d
  | IndexExists table name => indexExists tx table name d
  | IndexNotExists table name => notExists (IndexQuery table name) tx d
  | RoleExists name => roleExists tx name d
  | RoleNotExists name => notExists (RoleQuery name) tx d
  | DynamicGuard _ predicate => predicate tx d
  | Always => (true, None)
  end.

(** Modelled from the spec: the label that says what a Guard checks
    (missing with guard.go; the spec gives the example "table foo not
    exists" and no more). *)
Definition guardDescription (g : Guard) : string :=
  match g with
  | TableExists name => "table " +s+ name +s+ " exists"
  | TableNotExists name => "table " +s+ name +s+ " not exists"
  | ColumnExists table column => "column " +s+ table +s+ "." +s+ column +s+ " exists"
  | ColumnNotExists table column =>
      "column " +s+ table +s+ "." +s+ column +s+ " not exists"
  | ConstraintExists name => "constraint " +s+ name +s+ " exists"
  | ConstraintNotExists name => "constraint " +s+ name +s+ " not exists"
  | IndexExists table name => "index " +s+ table +s+ "." +s+ name +s+ " exists"
  | IndexNotExists table name => "index " +s+ table +s+ "." +s+ name +s+ " not exists"
  | RoleExists name => "role " +s+ name +s+ " exists"
  | RoleNotExists name => "role " +s+ name +s+ " not exists"
  | DynamicGuard label _ => label
  | Always => "always"
  end.

(** ** Invocables *)

(** Modelled from the spec: the Invocable variants of §3 (the interface
    and [Body] are missing): [Statements] is the source's
    [bodyStatements], a [Body] is custom logic on the database. *)
Inductive Invocable :=
| Statements (sql : bodyStatements)
| Body (action : Tx -> DB -> DB * error).

(** Modelled from the spec: [Invocable.Invoke], by variant (the
    interface is missing); on [Statements] it is the source's
    [Invoke]. *)
Definition InvocableInvoke (i : Invocable) (c : Connection) (tx : Tx)
    : Connection * error :=
  match i with
  | Statements sql => Invoke sql c tx
  | Body action =>
      let (d, err) := action tx (db c) in
      ({| db := d; calls := calls c |}, err)
  end.

(** ** Steps and Groups *)

(** Modelled from the spec: the tree of Steps and Groups the caller
    builds, §3 (step.go and group.go are missing).  A node's parent is
    the Group it was added to; [Apply] hands it down. *)
Inductive Tree :=
| NewStep (label : string) (guard : Guard) (invocable : Invocable)
| NewGroup (label : string) (shouldAbortOnError : bool) (children : list Tree).

(** Modelled from the spec: what one run works on (§3, §5): the
    connection, the Reporter of the run (nil when none is configured)
    and what was written to output loggers. *)
Record World := {
  conn : Connection;
  reporter : option Logger;
  output : Trace
}.

(** Modelled from the spec: the "<summary>" of an applied Step's
    report line (step.go is missing; the spec does not fix the text). *)
Definition applySummary : string := "done".

(** Modelled from the spec: [Step.Apply], the pseudo-code of §4.2
    (step.go is missing). *)
Definition StepApply (step : Migration) (guard : Guard) (invocable : Invocable)
    (tx : Tx) (w : World) : result (World * error) :=
  let c := record (CallGuard step tx) (conn w) in
  let (shouldApply, err) := Evaluate guard tx (db c) in
  match err with
  | Some _ =>
      do (l, tr, _) <- Error (reporter w) step err (output w);
      Ret ({| conn := c; reporter := l; output := tr |}, err)
  | None =>
      if negb shouldApply then
        let '(l, tr, _) := Skipf (reporter w) step (guardDescription guard) [] (output w) in
        Ret ({| conn := c; reporter := l; output := tr |}, None)
      else
        let (c, err) := InvocableInvoke invocable (record (CallInvocable step tx) c) tx in
        match err with
        | Some _ =>
            do (l, tr, _) <- Error (reporter w) step err (output w);
            Ret ({| conn := c; reporter := l; output := tr |}, err)
        | None =>
            let '(l, tr, _) := Applyf (reporter w) step applySummary [] (output w) in
            Ret ({| conn := c; reporter := l; output := tr |}, None)
        end
  end.

(** Modelled from the spec: the loop of [Group.Apply], §4.3 (group.go
    is missing), over the children still to apply; [first] is the first
    error met so far. *)
Fixpoint applyChildren (apply : Tree -> World -> result (World * error))
    (shouldAbortOnError : bool) (children : list Tree) (w : World) (first : error)
    : result (World * error) :=
  match children with
  | [] => Ret (w, first)
  | child :: rest =>
      do (w, err) <- apply child w;
      match err with
      | None => applyChildren apply shouldAbortOnError rest w first
      | Some _ =>
          if shouldAbortOnError then Ret (w, err)
          else applyChildren apply shouldAbortOnError rest w
                 (match first with None => err | Some _ => first end)
      end
  end.

(** Modelled from the spec: [Migration.Apply] on a Step (§4.2) or a
    Group (§4.3) (step.go and group.go are missing). *)
Fixpoint Apply (parent : option Migration) (t : Tree) (tx : Tx) (w : World)
    : result (World * error) :=
  match t with
  | NewStep label guard invocable =>
      StepApply (migration label parent) guard invocable tx w
  | NewGroup label shouldAbortOnError children =>
      let self := migration label parent in
      applyChildren (fun child w => Apply (Some self) child tx w)
        shouldAbortOnError children w None
  end.

(** The number of Steps of a tree. *)
Fixpoint countSteps (t : Tree) : nat :=
  match t with
  | NewStep _ _ _ => 1
  | NewGroup _ _ children => fold_right (fun c n => countSteps c + n)%nat 0%nat children
  end.

(** ** Vocabulary of the statements below *)

(** The parent chain of [m], from [m] itself up to the root. *)
Fixpoint chain (m : Migration) : list Migration :=
  match m with
  | migration _ parent =>
      m :: match parent with
           | None => []
           | Some p => chain p
           end
  end.

(** The ancestors of [m], nearest first. *)
Definition ancestors (m : Migration) : list Migration :=
  match Parent m with
  | None => []
  | Some p => chain p
  end.

Definition nonEmpty (s : string) : bool := (0 <? String.length s)%nat.

(** The labels a breadcrumb shows: the non-empty labels of the
    ancestors, root first. *)
Definition breadcrumbLabels (m : Migration) : list string :=
  rev (filter nonEmpty (map Label (ancestors m))).

(** Every label of [labels] with the separator before it. *)
Fixpoint separated (sep : string) (labels : list string) : string :=
  match labels with
  | [] => EmptyString
  | label :: rest => sep +s+ label +s+ separated sep rest
  end.

(** A call that took the trace from [before] to [after] emitted [n]
    report lines. *)
Definition emits (n : nat) (before after : Trace) : Prop :=
  exists lines, after = before ++ lines /\ List.length lines = n.

(** The statements [executed], each with the error the driver returned
    for it, were run one after another under [tx], taking the database
    from [d] to [d']. *)
Fixpoint ran (tx : Tx) (d : DB) (executed : list (string * error)) (d' : DB) : Prop :=
  match executed with
  | [] => d' = d
  | (statement, err) :: rest =>
      exists d1, InvocationExec tx statement statement [] d = (d1, err)
                 /\ ran tx d1 rest d'
  end.

Definition succeeded (x : string * error) : Prop := snd x = None.

(** The call the driver receives for a statement of a [Statements]. *)
Definition execCall (tx : Tx) (x : string * error) : Call :=
  CallExec tx (fst x) (fst x) [] (snd x).

(** The first non-nil error of a list of returned errors. *)
Fixpoint firstError (errs : list error) : error :=
  match errs with
  | [] => None
  | Some e :: _ => Some e
  | None :: rest => firstError rest
  end.

(** Apply every child in turn, whatever the earlier ones returned;
    the errors they returned, in order, and the world they left. *)
Fixpoint attempts (apply : Tree -> World -> result (World * error))
    (children : list Tree) (w : World) : result (list error * World) :=
  match children with
  | [] => Ret ([], w)
  | child :: rest =>
      do (w1, err) <- apply child w;
      do (errs, w2) <- attempts apply rest w1;
      Ret (err :: errs, w2)
  end.

Definition allNil (errs : list error) : bool :=
  forallb (fun e => match e with None => true | Some _ => false end) errs.

(** The Steps of a tree, in declared order. *)
Fixpoint steps (t : Tree) : list (Guard * Invocable) :=
  match t with
  | NewStep _ guard invocable => [(guard, invocable)]
  | NewGroup _ _ children => flat_map steps children
  end.

(** A Group stops at a child that returned [err]. *)
Definition stops (shouldAbortOnError : bool) (err : error) : bool :=
  match err with
  | Some _ => shouldAbortOnError
  | None => false
  end.

(** The desired state of [g] holds in [d]: nothing to apply. *)
Definition settled (tx : Tx) (g : Guard) (d : DB) : Prop :=
  Evaluate g tx d = (false, None).

(** The Guard reflects the Invocable's post-condition: once the
    Invocable has succeeded, the Guard finds nothing to apply. *)
Definition reflects (tx : Tx) (g : Guard) (i : Invocable) : Prop :=
  forall c c', InvocableInvoke i c tx = (c', None) -> settled tx g (db c').

(** The Invocable does not undo the desired state of [g]. *)
Definition preserves (tx : Tx) (i : Invocable) (g : Guard) : Prop :=
  forall c c',
    settled tx g (db c) -> InvocableInvoke i c tx = (c', None) -> settled tx g (db c').

(** A call returns, and only adds to the calls the connection saw. *)
Definition returns (w : World) (r : result (World * error)) : Prop :=
  exists w' err made,
    r = Ret (w', err) /\ calls (conn w') = calls (conn w) ++ made.

(** What a run without error from [w] to [w1] does to the desired
    states of the Steps [all]: those that held still hold, those of
    the Steps [t] it went through hold. *)
Definition settles (tx : Tx) (all t : list (Guard * Invocable)) (w w1 : World) : Prop :=
  (forall g i, In (g, i) all ->
     settled tx g (db (conn w)) -> settled tx g (db (conn w1))) /\
  (forall g i, In (g, i) t -> settled tx g (db (conn w1))).

(** A run from [w] to [w2] skipped [n] Steps and did nothing else. *)
Definition skips (n : nat) (w w2 : World) : Prop :=
  exists l l2,
    reporter w = Some l /\ reporter w2 = Some l2 /\
    db (conn w2) = db (conn w) /\
    applied l2 = applied l /\ failed l2 = failed l /\
    skipped l2 = int_wrap (skipped l + Z.of_nat n).

(** A second run of the same tree: the connection as the first run
    left it, a fresh Reporter writing to [o]. *)
Definition freshLogger (o : option OutputLogger) (phase : string) : Logger :=
  {| Output := o; Phase := phase; Result := EmptyString;
     applied := 0; skipped := 0; failed := 0 |}.

Definition secondRun (w : World) (l : Logger) : World :=
  {| conn := conn w; reporter := Some l; output := output w |}.

End Model.

(** ** An in-memory database, to run the model on examples

    The database is the list of its table names; the driver knows
    [CREATE TABLE t] and [DROP TABLE t]. *)
Module Memory.

Definition hasTable (t : string) (d : list string) : bool :=
  existsb (String.eqb t) d.

Definition dropTable (t : string) (d : list string) : list string :=
  filter (fun x => negb (String.eqb t x)) d.

Definition after (prefix s : string) : string :=
  substring (String.length prefix) (String.length s - String.length prefix) s.

Definition exec (tx : Tx) (cacheLabel statement : string) (args : list string)
    (d : list string) : list string * option string :=
  if String.prefix "CREATE TABLE " statement then
    let t := after "CREATE TABLE " statement in
    if hasTable t d then (d, Some ("relation " +s+ t +s+ " already exists"))
    else (t :: d, None)
  else if String.prefix "DROP TABLE " statement then
    let t := after "DROP TABLE " statement in
    if hasTable t d then (dropTable t d, None)
    else (d, Some ("table " +s+ t +s+ " does not exist"))
  else (d, Some "syntax error").

Definition queryIsEmpty (q : Introspection) (tx : Tx) (d : list string)
    : bool * option string :=
  match q with
  | TableQuery t => (negb (hasTable t d), None)
  | _ => (true, None)
  end.

Definition env : Env := {|
  OutputLogger := nat;
  Any := string;
  ErrVal := string;
  ErrorString := fun e => e;
  WriterColorize := fun _ text _ => text;
  Sprintf := fun body _ => body;
  RuneCountInString := String.length;
  DB := list string;
  InvocationExec := exec;
  QueryIsEmpty := queryIsEmpty
|}.
#[local] Existing Instance env.

Definition emptyWorld (d : list string) (l : option (@Logger env)) : @World env :=
  {| conn := {| db := d; calls := [] |}; reporter := l; output := [] |}.

(** The pattern of the package's example: drop the table if it is
    there, then create it if it is not. *)
Definition dropStep : @Tree env :=
  NewStep "drop" (TableExists "t") (Statements ["DROP TABLE t"]).

Definition createStep : @Tree env :=
  NewStep "create" (TableNotExists "t") (Statements ["CREATE TABLE t"]).

Definition recreate : @Tree env :=
  NewGroup "recreate" true [dropStep; createStep].

(** Two tables, each created when it is missing. *)
Definition schema : @Tree env :=
  NewGroup "schema" true
    [NewStep "t" (TableNotExists "t") (Statements ["CREATE TABLE t"]);
     NewStep "u" (TableNotExists "u") (Statements ["CREATE TABLE u"])].

(** The world a run returned (the world it started in, had it
    panicked). *)
Definition worldOf (r : result (@World env * @error env)) (w : @World env)
    : @World env :=
  match r with
  | Ret (w', _) => w'
  | Panic => w
  end.

(** A Step whose statement the driver refuses. *)
Definition badStep : @Tree env :=
  NewStep "bad" Always (Statements ["SELECT"]).

End Memory.

(** * More of the package *)

Section MoreModel.
Context {E : Env}.

(** ** logger.go, continued *)

(** [NewLogger]: the Logger writes to [log]; everything else is zero.
    ([log.Enable] and [log.Listen] configure the sink itself.) *)
Definition NewLogger (log : OutputLogger) : Logger :=
  {| Output := Some log; Phase := EmptyString; Result := EmptyString;
     applied := 0; skipped := 0; failed := 0 |}.

(** A call of one of the three recording operations, as a Step makes
    them: [Error] is given an error that is not nil. *)
Inductive Recording :=
| CallApplyf (m : Migration) (body : string) (args : list Any)
| CallSkipf (m : Migration) (body : string) (args : list Any)
| CallError (m : Migration) (e : ErrVal).

Definition perform (op : Recording) (l : option Logger) (tr : Trace)
    : result (option Logger * Trace) :=
  match op with
  | CallApplyf m body args =>
      let '(l, tr, _) := Applyf l m body args tr in Ret (l, tr)
  | CallSkipf m body args =>
      let '(l, tr, _) := Skipf l m body args tr in Ret (l, tr)
  | CallError m e =>
      do (l, tr, _) <- Error l m (Some e) tr; Ret (l, tr)
  end.

(** The calls [ops], one after another, on the same Logger. *)
Fixpoint performAll (ops : list Recording) (l : option Logger) (tr : Trace)
    : result (option Logger * Trace) :=
  match ops with
  | [] => Ret (l, tr)
  | op :: rest => do (l, tr) <- perform op l tr; performAll rest l tr
  end.

Definition isApplyf (op : Recording) : bool :=
  match op with CallApplyf _ _ _ => true | _ => false end.

Definition isSkipf (op : Recording) : bool :=
  match op with CallSkipf _ _ _ => true | _ => false end.

Definition isError (op : Recording) : bool :=
  match op with CallError _ _ => true | _ => false end.

Definition count (f : Recording -> bool) (ops : list Recording) : nat :=
  List.length (filter f ops).

(** The word an operation leaves in [Result]. *)
Definition resultWord (op : Recording) : string :=
  match op with
  | CallApplyf _ _ _ => "applied"
  | CallSkipf _ _ _ => "skipped"
  | CallError _ _ => "failed"
  end.

(** Go's [x = x + 1], [n] times. *)
Definition incremented (n : nat) (x : Z) : Z :=
  Nat.iter n (fun z => int_add z 1) x.

(** What a run of recording operations from [l] to [l'] added to the
    trace. *)
Definition accounted (ops : list Recording) (l l' : Logger) (lines : Trace) : Prop :=
  Output l' = Output l /\ Phase l' = Phase l /\
  applied l' = incremented (count isApplyf ops) (applied l) /\
  skipped l' = incremented (count isSkipf ops) (skipped l) /\
  failed l' = incremented (count isError ops) (failed l) /\
  Result l' = last (map resultWord ops) (Result l) /\
  match Output l with
  | Some o =>
      List.length lines = List.length ops /\
      Forall (fun x => fst x = o /\ msg_flag (snd x) = Event) lines
  | None => lines = []
  end.

(** ** body_statements.go, continued *)

(** [BodyStatements(stmts...)]: the statements as an Invocable. *)
Definition BodyStatements (stmts : list string) : bodyStatements := stmts.

(** [Statement(statement)]: the action that runs one statement. *)
Definition Statement (statement : string) (c : Connection) (tx : Tx)
    : Connection * error :=
  ExecInTx statement tx [] c.

End MoreModel.

(** ** Package spiffy: connection parameters and configuration *)

Module spiffy.

(** What the package asks of the platform and of other packages. *)
Class Platform := {
  (** [os.Getenv]: the process environment; an unset variable reads as
      the empty string. *)
  Getenv : string -> string;
  (** [url.QueryEscape]. *)
  QueryEscape : string -> string;
  (** the non-nil values of [error]. *)
  Err : Type;
  (** go-exception's [exception.New] and [exception.Wrap]. *)
  ExceptionNew : string -> Err;
  ExceptionWrap : option Err -> option Err;
  (** go-util's [util.Coalesce.String], [.Bool], [.Int], [.Duration]:
      the value, the default, the inherited values. *)
  CoalesceString : string -> string -> list string -> string;
  CoalesceBool : option bool -> bool -> list bool -> bool;
  CoalesceInt : Z -> Z -> list Z -> Z;
  CoalesceDuration : Z -> Z -> list Z -> Z;
  (** [*sql.DB] handles and the world of the driver behind them. *)
  SqlDB : Type;
  Sql : Type;
  (** [sql.Open(driverName, dataSourceName)]. *)
  SqlOpen : string -> string -> Sql -> Sql * (SqlDB + Err);
  (** [Exec(query)] on a [*sql.DB], its result dropped. *)
  SqlExec : SqlDB -> string -> Sql -> Sql * option Err
}.

Section Connections.
Context {P : Platform}.

(** The [Connection] struct: its parameters, the driver connection
    ([Connection] in Go, nil until opened) and the statement cache
    switch.  The locks, the buffer pool, the logger and the statement
    cache itself are not read by the functions below. *)
Record Connection := {
  DSN : string;
  Host : string;
  Port : string;
  Database : string;
  Schema : string;
  Username : string;
  Password : string;
  SSLMode : string;
  Connection_ : option SqlDB;
  useStatementCache : bool
}.

(** [New]. *)
Definition New : Connection :=
  {| DSN := EmptyString; Host := EmptyString; Port := EmptyString;
     Database := EmptyString; Schema := EmptyString; Username := EmptyString;
     Password := EmptyString; SSLMode := EmptyString;
     Connection_ := None; useStatementCache := false |}.

Definition NewWithHost (host dbName : string) : Connection :=
  {| DSN := DSN New; Host := host; Port := Port New; Database := dbName;
     Schema := Schema New; Username := Username New; Password := Password New;
     SSLMode := "disable";
     Connection_ := Connection_ New; useStatementCache := useStatementCache New |}.

Definition NewWithPassword (host dbName username password : string) : Connection :=
  {| DSN := DSN New; Host := host; Port := Port New; Database := dbName;
     Schema := Schema New; Username := username; Password := password;
     SSLMode := "disable";
     Connection_ := Connection_ New; useStatementCache := useStatementCache New |}.

Definition NewWithSSLMode (host dbName username password sslMode : string)
    : Connection :=
  {| DSN := DSN New; Host := host; Port := Port New; Database := dbName;
     Schema := Schema New; Username := username; Password := password;
     SSLMode := sslMode;
     Connection_ := Connection_ New; useStatementCache := useStatementCache New |}.

Definition NewFromDSN (dsn : string) : Connection :=
  {| DSN := dsn; Host := Host New; Port := Port New; Database := Database New;
     Schema := Schema New; Username := Username New; Password := Password New;
     SSLMode := SSLMode New;
     Connection_ := Connection_ New; useStatementCache := useStatementCache New |}.

Definition envVarWithDefault (varName defaultValue : string) : string :=
  let envVarValue := Getenv varName in
  if (0 <? String.length envVarValue)%nat then envVarValue else defaultValue.

Definition NewFromEnv : Connection :=
  if (0 <? String.length (Getenv "DATABASE_URL"))%nat
  then NewFromDSN (Getenv "DATABASE_URL")
  else
    {| DSN := DSN New;
       Host := envVarWithDefault "DB_HOST" "localhost";
       Port := Port New;
       Database := envVarWithDefault "DB_NAME" "postgres";
       Schema := Getenv "DB_SCHEMA";
       Username := Getenv "DB_USER";
       Password := Getenv "DB_PASSWORD";
       SSLMode := envVarWithDefault "DB_SSLMODE" "disable";
       Connection_ := Connection_ New;
       useStatementCache := useStatementCache New |}.

(** [CreatePostgresConnectionString]; [fmt.Sprintf] with [%s] verbs on
    strings is concatenation. *)
Definition CreatePostgresConnectionString (dbc : Connection) : string * option Err :=
  if negb (String.length (DSN dbc) =? 0)%nat then (DSN dbc, None)
  else if (String.length (Database dbc) =? 0)%nat then
    (EmptyString, Some (ExceptionNew "`DB_NAME` is required to open a new connection"))
  else
    let sslMode :=
      if (0 <? String.length (SSLMode dbc))%nat
      then "?sslmode=" +s+ QueryEscape (SSLMode dbc)
      else "?sslmode=disable" in
    let portSegment :=
      if (0 <? String.length (Port dbc))%nat then ":" +s+ Port dbc else EmptyString in
    if negb (String.eqb (Username dbc) EmptyString) then
      if negb (String.eqb (Password dbc) EmptyString) then
        ("postgres://" +s+ QueryEscape (Username dbc) +s+ ":"
         +s+ QueryEscape (Password dbc) +s+ "@" +s+ Host dbc +s+ portSegment
         +s+ "/" +s+ Database dbc +s+ sslMode, None)
      else
        ("postgres://" +s+ QueryEscape (Username dbc) +s+ "@" +s+ Host dbc
         +s+ portSegment +s+ "/" +s+ Database dbc +s+ sslMode, None)
    else
      ("postgres://" +s+ Host dbc +s+ portSegment +s+ "/" +s+ Database dbc
       +s+ sslMode, None).

(** The message of the error of a Connection without database name. *)
Definition nameRequired : string :=
  "`DB_NAME` is required to open a new connection".

(** A value, or the default in its place when it is empty. *)
Definition orDefault (value defaultValue : string) : string :=
  if String.eqb value EmptyString then defaultValue else value.

(** The user part of an address: nothing without user name, no
    password without password. *)
Definition userinfo (username password : string) : string :=
  if String.eqb username EmptyString then EmptyString
  else if String.eqb password EmptyString then QueryEscape username +s+ "@"
  else QueryEscape username +s+ ":" +s+ QueryEscape password +s+ "@".

(** [openNewSQLConnection]. *)
Definition openNewSQLConnection (dbc : Connection) (s : Sql)
    : Sql * (option SqlDB * option Err) :=
  let (connStr, err) := CreatePostgresConnectionString dbc in
  match err with
  | Some _ => (s, (None, err))
  | None =>
      match SqlOpen "postgres" connStr s with
      | (s, inr e) => (s, (None, ExceptionWrap (Some e)))
      | (s, inl dbConn) =>
          let '(s, err) :=
            if (0 <? String.length (Schema dbc))%nat
            then SqlExec dbConn ("SET search_path TO " +s+ Schema dbc +s+ ",public;") s
            else (s, None) in
          match err with
          | Some _ => (s, (None, ExceptionWrap err))
          | None =>
              let (s, err) := SqlExec dbConn "select 'ok!'" s in
              match err with
              | Some _ => (s, (None, ExceptionWrap err))
              | None => (s, (Some dbConn, None))
              end
          end
      end
  end.

Definition setConnection (dbc : Connection) (c : option SqlDB) : Connection :=
  {| DSN := DSN dbc; Host := Host dbc; Port := Port dbc; Database := Database dbc;
     Schema := Schema dbc; Username := Username dbc; Password := Password dbc;
     SSLMode := SSLMode dbc;
     Connection_ := c; useStatementCache := useStatementCache dbc |}.

(** [Open], by one caller at a time: the receiver as the call leaves
    it, the driver's world, and the two results ([true]: the receiver
    itself; [false]: nil). *)
Definition Open (dbc : Connection) (s : Sql) : Connection * Sql * (bool * option Err) :=
  match Connection_ dbc with
  | Some _ => (dbc, s, (true, None))
  | None =>
      match openNewSQLConnection dbc s with
      | (s, (_, Some e)) => (dbc, s, (false, ExceptionWrap (Some e)))
      | (s, (newConn, None)) => (setConnection dbc newConn, s, (true, None))
      end
  end.

End Connections.

(** *** config.go *)

Module Cfg.
Section Configs.
Context {P : Platform}.

Definition DefaultHost : string := "localhost".
Definition DefaultPort : string := "5432".
Definition DefaultDatabase : string := "postgres".
Definition SSLModeDisable : string := "disable".
Definition DefaultSSLMode : string := SSLModeDisable.
Definition DefaultUseStatementCache : bool := true.
Definition DefaultIdleConnections : Z := 16.
Definition DefaultMaxConnections : Z := 32.
Definition DefaultMaxLifetime : Z := 0.
Definition DefaultBufferPoolSize : Z := 1024.

Record Config := {
  DSN : string;
  Host : string;
  Port : string;
  Database : string;
  Schema : string;
  Username : string;
  Password : string;
  SSLMode : string;
  UseStatementCache : option bool;
  IdleConnections : Z;
  MaxConnections : Z;
  MaxLifetime : Z;
  BufferPoolSize : Z
}.

(** [NewConfig]: the zero Config. *)
Definition NewConfig : Config :=
  {| DSN := EmptyString; Host := EmptyString; Port := EmptyString;
     Database := EmptyString; Schema := EmptyString; Username := EmptyString;
     Password := EmptyString; SSLMode := EmptyString; UseStatementCache := None;
     IdleConnections := 0; MaxConnections := 0; MaxLifetime := 0;
     BufferPoolSize := 0 |}.

Definition WithDSN (c : Config) (dsn : string) : Config :=
  {| DSN := dsn; Host := Host c; Port := Port c; Database := Database c;
     Schema := Schema c; Username := Username c; Password := Password c;
     SSLMode := SSLMode c; UseStatementCache := UseStatementCache c;
     IdleConnections := IdleConnections c; MaxConnections := MaxConnections c;
     MaxLifetime := MaxLifetime c; BufferPoolSize := BufferPoolSize c |}.

Definition WithHost (c : Config) (host : string) : Config :=
  {| DSN := DSN c; Host := host; Port := Port c; Database := Database c;
     Schema := Schema c; Username := Username c; Password := Password c;
     SSLMode := SSLMode c; UseStatementCache := UseStatementCache c;
     IdleConnections := IdleConnections c; MaxConnections := MaxConnections c;
     MaxLifetime := MaxLifetime c; BufferPoolSize := BufferPoolSize c |}.

Definition WithPort (c : Config) (port : string) : Config :=
  {| DSN := DSN c; Host := Host c; Port := port; Database := Database c;
     Schema := Schema c; Username := Username c; Password := Password c;
     SSLMode := SSLMode c; UseStatementCache := UseStatementCache c;
     IdleConnections := IdleConnections c; MaxConnections := MaxConnections c;
     MaxLifetime := MaxLifetime c; BufferPoolSize := BufferPoolSize c |}.

Definition WithDatabase (c : Config) (database : string) : Config :=
  {| DSN := DSN c; Host := Host c; Port := Port c; Database := database;
     Schema := Schema c; Username := Username c; Password := Password c;
     SSLMode := SSLMode c; UseStatementCache := UseStatementCache c;
     IdleConnections := IdleConnections c; MaxConnections := MaxConnections c;
     MaxLifetime := MaxLifetime c; BufferPoolSize := BufferPoolSize c |}.

Definition WithSchema (c : Config) (schema : string) : Config :=
  {| DSN := DSN c; Host := Host c; Port := Port c; Database := Database c;
     Schema := schema; Username := Username c; Password := Password c;
     SSLMode := SSLMode c; UseStatementCache := UseStatementCache c;
     IdleConnections := IdleConnections c; MaxConnections := MaxConnections c;
     MaxLifetime := MaxLifetime c; BufferPoolSize := BufferPoolSize c |}.

Definition WithUsername (c : Config) (username : string) : Config :=
  {| DSN := DSN c; Host := Host c; Port := Port c; Database := Database c;
     Schema := Schema c; Username := username; Password := Password c;
     SSLMode := SSLMode c; UseStatementCache := UseStatementCache c;
     IdleConnections := IdleConnections c; MaxConnections := MaxConnections c;
     MaxLifetime := MaxLifetime c; BufferPoolSize := BufferPoolSize c |}.

Definition WithPassword (c : Config) (password : string) : Config :=
  {| DSN := DSN c; Host := Host c; Port := Port c; Database := Database c;
     Schema := Schema c; Username := Username c; Password := password;
     SSLMode := SSLMode c; UseStatementCache := UseStatementCache c;
     IdleConnections := IdleConnections c; MaxConnections := MaxConnections c;
     MaxLifetime := MaxLifetime c; BufferPoolSize := BufferPoolSize c |}.

Definition WithSSLMode (c : Config) (sslMode : string) : Config :=
  {| DSN := DSN c; Host := Host c; Port := Port c; Database := Database c;
     Schema := Schema c; Username := Username c; Password := Password c;
     SSLMode := sslMode; UseStatementCache := UseStatementCache c;
     IdleConnections := IdleConnections c; MaxConnections := MaxConnections c;
     MaxLifetime := MaxLifetime c; BufferPoolSize := BufferPoolSize c |}.

Definition GetDSN (c : Config) (inherited : list string) : string :=
  CoalesceString (DSN c) EmptyString inherited.

Definition GetHost (c : Config) (inherited : list string) : string :=
  CoalesceString (Host c) DefaultHost inherited.

Definition GetPort (c : Config) (inherited : list string) : string :=
  CoalesceString (Port c) DefaultPort inherited.

Definition GetDatabase (c : Config) (inherited : list string) : string :=
  CoalesceString (Database c) DefaultDatabase inherited.

Definition GetSchema (c : Config) (inherited : list string) : string :=
  CoalesceString (Schema c) EmptyString inherited.

Definition GetUsername (c : Config) (inherited : list string) : string :=
  CoalesceString (Username c) EmptyString inherited.

Definition GetPassword (c : Config) (inherited : list string) : string :=
  CoalesceString (Password c) EmptyString inherited.

Definition GetSSLMode (c : Config) (inherited : list string) : string :=
  CoalesceString (SSLMode c) DefaultSSLMode inherited.

Definition GetUseStatementCache (c : Config) (inherited : list bool) : bool :=
  CoalesceBool (UseStatementCache c) DefaultUseStatementCache inherited.

Definition GetIdleConnections (c : Config) (inherited : list Z) : Z :=
  CoalesceInt (IdleConnections c) DefaultIdleConnections inherited.

Definition GetMaxConnections (c : Config) (inherited : list Z) : Z :=
  CoalesceInt (MaxConnections c) DefaultMaxConnections inherited.

Definition GetMaxLifetime (c : Config) (inherited : list Z) : Z :=
  CoalesceDuration (MaxLifetime c) DefaultMaxLifetime inherited.

Definition GetBufferPoolSize (c : Config) (inherited : list Z) : Z :=
  CoalesceInt (BufferPoolSize c) DefaultBufferPoolSize inherited.

(** [CreateDSN]. *)
Definition CreateDSN (c : Config) : string :=
  if negb (String.length (GetDSN c []) =? 0)%nat then GetDSN c []
  else
    let sslMode :=
      if (0 <? String.length (GetSSLMode c []))%nat
      then "?sslmode=" +s+ QueryEscape (GetSSLMode c [])
      else EmptyString in
    let port :=
      if (0 <? String.length (GetPort c []))%nat
      then ":" +s+ GetPort c []
      else EmptyString in
    if (0 <? String.length (GetUsername c []))%nat then
      if (0 <? String.length (GetPassword c []))%nat then
        "postgres://" +s+ QueryEscape (GetUsername c []) +s+ ":"
        +s+ QueryEscape (GetPassword c []) +s+ "@" +s+ GetHost c [] +s+ port
        +s+ "/" +s+ GetDatabase c [] +s+ sslMode
      else
        "postgres://" +s+ QueryEscape (GetUsername c []) +s+ "@" +s+ GetHost c []
        +s+ port +s+ "/" +s+ GetDatabase c [] +s+ sslMode
    else
      "postgres://" +s+ GetHost c [] +s+ port +s+ "/" +s+ GetDatabase c []
      +s+ sslMode.

(** The Connection with the parameters of a Config. *)
Definition parameters (c : Config) : Connection :=
  {| spiffy.DSN := DSN c; spiffy.Host := Host c; spiffy.Port := Port c;
     spiffy.Database := Database c; spiffy.Schema := Schema c;
     spiffy.Username := Username c; spiffy.Password := Password c;
     spiffy.SSLMode := SSLMode c;
     Connection_ := None; useStatementCache := false |}.

(** [util.Coalesce.String] as the getters rely on it: a value that is
    set wins; with nothing set and nothing inherited, the default. *)
Definition coalesces : Prop :=
  (forall value defaultValue inherited,
      value <> EmptyString -> CoalesceString value defaultValue inherited = value) /\
  (forall defaultValue, CoalesceString EmptyString defaultValue [] = defaultValue).

End Configs.
End Cfg.

(** *** The listener of diagnostics events *)

Section Events.
Context {P : Platform}.

(** An [interface{}] of the [state] of an event: nil, a [string], a
    [time.Duration], an [error], or a value of some other type. *)
Inductive Value :=
| VNil
| VString (s : string)
| VDuration (d : Z)
| VError (e : Err)
| VOther.

(** [state[i]]: out of range is a panic. *)
Definition index (state : list Value) (i : nat) : result Value :=
  match nth_error state i with
  | Some v => Ret v
  | None => Panic
  end.

(** [v.(string)], [v.(time.Duration)], [v.(error)]: a failed
    assertion is a panic. *)
Definition assertString (v : Value) : result string :=
  match v with VString s => Ret s | _ => Panic end.

Definition assertDuration (v : Value) : result Z :=
  match v with VDuration d => Ret d | _ => Panic end.

Definition assertError (v : Value) : result Err :=
  match v with VError e => Ret e | _ => Panic end.

Definition isNil (v : Value) : bool :=
  match v with VNil => true | _ => false end.

(** An [error] as an [interface{}]. *)
Definition ofError (err : option Err) : Value :=
  match err with
  | Some e => VError e
  | None => VNil
  end.

(** [NewEventListener(action)] on the [state] of one event; the
    writer, the time source and the event are handed to [action] as
    they come. *)
Definition NewEventListener {A : Type}
    (action : string -> Z -> option Err -> string -> A) (state : list Value)
    : result A :=
  do v0 <- index state 0;
  do queryBody <- assertString v0;
  do v1 <- index state 1;
  do elapsed <- assertDuration v1;
  do err <-
    (if (2 <? List.length state)%nat then
       do v2 <- index state 2;
       if negb (isNil v2) then do e <- assertError v2; Ret (Some e) else Ret None
     else Ret None);
  do queryLabel <-
    (if (3 <? List.length state)%nat then
       do v3 <- index state 3;
       if negb (isNil v3) then assertString v3 else Ret EmptyString
     else Ret EmptyString);
  Ret (action queryBody elapsed err queryLabel).

End Events.

End spiffy.

(** ** A platform to run package spiffy on examples

    The environment is a list of bindings; nothing is escaped; the
    driver opens any data source and executes any statement, and its
    world is the list of what it was asked. *)
Module Local.

Fixpoint lookup (environ : list (string * string)) (name : string) : string :=
  match environ with
  | [] => EmptyString
  | (k, v) :: rest => if String.eqb k name then v else lookup rest name
  end.

Definition coalesce (value defaultValue : string) (inherited : list string) : string :=
  if (0 <? String.length value)%nat then value
  else match inherited with
       | first :: _ => first
       | [] => defaultValue
       end.

Definition platform (environ : list (string * string)) : spiffy.Platform := {|
  spiffy.Getenv := lookup environ;
  spiffy.QueryEscape := fun s => s;
  spiffy.Err := string;
  spiffy.ExceptionNew := fun message => message;
  spiffy.ExceptionWrap := fun err => err;
  spiffy.CoalesceString := coalesce;
  spiffy.CoalesceBool := fun value defaultValue _ =>
    match value with Some b => b | None => defaultValue end;
  spiffy.CoalesceInt := fun value defaultValue _ =>
    if (value =? 0) then defaultValue else value;
  spiffy.CoalesceDuration := fun value defaultValue _ =>
    if (value =? 0) then defaultValue else value;
  spiffy.SqlDB := string;
  spiffy.Sql := list string;
  spiffy.SqlOpen := fun driverName dataSourceName s =>
    (s ++ ["open " +s+ dataSourceName], inl dataSourceName);
  spiffy.SqlExec := fun _ query s => (s ++ [query], None)
|}.

(** The platform with an empty environment. *)
Definition bare : spiffy.Platform := platform [].

(** The driver before it was asked anything. *)
Definition idle : @spiffy.Sql bare := [].

(** A Config with every parameter of the address set. *)
Definition fullConfig : @spiffy.Cfg.Config :=
  {| spiffy.Cfg.DSN := EmptyString; spiffy.Cfg.Host := "db.internal";
     spiffy.Cfg.Port := "5433"; spiffy.Cfg.Database := "app";
     spiffy.Cfg.Schema := EmptyString; spiffy.Cfg.Username := "web";
     spiffy.Cfg.Password := "secret"; spiffy.Cfg.SSLMode := "require";
     spiffy.Cfg.UseStatementCache := None;
     spiffy.Cfg.IdleConnections := 0; spiffy.Cfg.MaxConnections := 0;
     spiffy.Cfg.MaxLifetime := 0; spiffy.Cfg.BufferPoolSize := 0 |}.

End Local.

(** * Properties *)

(** ** Strings and Go integers *)

Lemma append_assoc (a b c : string) : (a +s+ b) +s+ c = a +s+ (b +s+ c).
Proof. induction a as [|x a IH]; simpl; [reflexivity | now rewrite IH]. Qed.

Lemma append_empty_r (a : string) : a +s+ EmptyString = a.
Proof. induction a as [|x a IH]; simpl; [reflexivity | now rewrite IH]. Qed.

Lemma substring_whole (s : string) : substring 0 (String.length s) s = s.
Proof. induction s as [|x s IH]; simpl; [reflexivity | now rewrite IH]. Qed.

Lemma TrimPrefix_space (s : string) : TrimPrefix (String " " s) " " = s.
Proof.
  unfold TrimPrefix. cbn [String.prefix].
  destruct (ascii_dec " " " ") as [_|n]; [|now destruct n].
  destruct s; cbn [String.prefix String.length substring Nat.sub];
    rewrite ?Nat.sub_0_r; try reflexivity.
  apply (substring_whole (String _ _)).
Qed.

Lemma TrimPrefix_empty (p : string) : TrimPrefix EmptyString p = EmptyString.
Proof. unfold TrimPrefix. destruct p; reflexivity. Qed.

(** Below the largest [int], Go's [+ 1] is the successor. *)
Lemma int_add_1 (x : Z) : int_min <= x < int_max -> int_add x 1 = x + 1.
Proof.
  unfold int_add, int_wrap, int_min, int_max. intros H.
  rewrite Z.mod_small; lia.
Qed.

Section LoggerFacts.
Context {E : Env}.

(** Induction along the parent chain. *)
Lemma Migration_chain_ind (P : Migration -> Prop)
    (Hroot : forall label, P (migration label None))
    (Hchild : forall label p, P p -> P (migration label (Some p))) :
  forall m, P m.
Proof.
  fix IH 1. intros [label [p|]].
  - apply Hchild, IH.
  - apply Hroot.
Qed.

Lemma separated_app sep xs ys :
  separated sep (xs ++ ys) = separated sep xs +s+ separated sep ys.
Proof.
  induction xs as [|x xs IH]; simpl; [reflexivity|].
  now rewrite IH, !append_assoc.
Qed.

Lemma separated_concat sep label rest :
  separated sep (label :: rest) = sep +s+ String.concat sep (label :: rest).
Proof.
  revert label. induction rest as [|y rest IH]; intros label.
  - simpl. now rewrite append_empty_r.
  - change (separated sep (label :: y :: rest))
      with (sep +s+ label +s+ separated sep (y :: rest)).
    rewrite IH. reflexivity.
Qed.

Lemma renderStackLoop_separated sep cursor acc :
  renderStackLoop sep cursor acc
  = separated sep (rev (filter nonEmpty (map Label (chain cursor)))) +s+ acc.
Proof.
  revert acc. induction cursor as [label|label p IH] using Migration_chain_ind;
    intros acc; cbn [renderStackLoop chain map filter Label]; unfold nonEmpty at 1;
    [|rewrite IH]; destruct (0 <? String.length label)%nat; cbn [rev];
    rewrite ?separated_app; cbn [separated app];
    now rewrite ?append_assoc, ?append_empty_r.
Qed.

Lemma renderStack_separated o m color :
  renderStack o m color
  = TrimPrefix (separated (stackSeparator o) (breadcrumbLabels m)) " ".
Proof.
  unfold renderStack, breadcrumbLabels, ancestors.
  destruct (Parent m) as [p|]; [|reflexivity].
  now rewrite renderStackLoop_separated, append_empty_r.
Qed.

(** C8.  The breadcrumb of [m] is made of the labels of [m]'s ancestors
    only (never [m]'s own), met by walking the parent chain from [m]
    up to the root, without the empty ones, root first, consecutive
    labels joined by the separator (the whole led by the separator's
    mark); a Migration with no parent has the empty breadcrumb. *)
Theorem renderStack_breadcrumb (o : OutputLogger) (m : Migration) (color : AnsiColor) :
  (renderStack o m color =
     match breadcrumbLabels m with
     | [] => EmptyString
     | labels =>
         colorize o ">" ColorLightBlack +s+ " "
         +s+ String.concat (stackSeparator o) labels
     end) /\
  (forall label, renderStack o (migration label None) color = EmptyString).
Proof.
  split; [|reflexivity].
  rewrite renderStack_separated.
  destruct (breadcrumbLabels m) as [|label rest]; [reflexivity|].
  rewrite separated_concat. unfold stackSeparator at 1.
  cbn [String.append]. rewrite TrimPrefix_space.
  now rewrite !append_assoc.
Qed.

Lemma Error_Ret (l : option Logger) m (e : ErrVal) tr :
  exists l' tr', Error l m (Some e) tr = Ret (l', tr', Some e).
Proof. destruct l; simpl; eauto. Qed.

Lemma write_emits (l : Logger) m color body tr :
  emits (match Output l with Some _ => 1 | None => 0 end) tr (write l m color body tr).
Proof.
  unfold write, emits, SyncTrigger. destruct (Output l) as [o|].
  - eexists [_]. split; reflexivity.
  - exists []. now rewrite app_nil_r.
Qed.

(** C6, as the code has it.  On a Logger (not nil), each recording
    operation adds one to its own counter (Go's [+ 1]), leaves the
    other two as they were and sets [Result] to its own word; it emits
    exactly one report line when the Logger has an [Output], and none
    when [Output] is nil.  [Error] is given an error that is not nil. *)
Theorem recording_operations (l : Logger) (m : Migration) (body : string)
    (args : list Any) (e : ErrVal) (tr : Trace) :
  let n := match Output l with Some _ => 1%nat | None => 0%nat end in
  (exists l' tr',
     Applyf (Some l) m body args tr = (Some l', tr', None) /\
     applied l' = int_add (applied l) 1 /\ skipped l' = skipped l /\
     failed l' = failed l /\ Result l' = "applied" /\ emits n tr tr') /\
  (exists l' tr',
     Skipf (Some l) m body args tr = (Some l', tr', None) /\
     skipped l' = int_add (skipped l) 1 /\ applied l' = applied l /\
     failed l' = failed l /\ Result l' = "skipped" /\ emits n tr tr') /\
  (exists l' tr',
     Error (Some l) m (Some e) tr = Ret (Some l', tr', Some e) /\
     failed l' = int_add (failed l) 1 /\ applied l' = applied l /\
     skipped l' = skipped l /\ Result l' = "failed" /\ emits n tr tr').
Proof.
  intros n. repeat split; do 2 eexists; cbn [Applyf Skipf Error];
    (split; [reflexivity|]); repeat (split; [reflexivity|]);
    apply (write_emits (set_applied l)) || apply (write_emits (set_skipped l))
    || apply (write_emits (set_failed l)).
Qed.

(** C7.  Given an error [e], [Error] returns that very [e], whatever
    the Migration and whatever the receiver; on a Logger it has
    recorded the failure besides. *)
Theorem Error_passes_through (l : option Logger) (m : Migration) (e : ErrVal)
    (tr : Trace) :
  exists l' tr',
    Error l m (Some e) tr = Ret (l', tr', Some e) /\
    match l, l' with
    | Some l0, Some l1 =>
        failed l1 = int_add (failed l0) 1 /\ Result l1 = "failed"
        /\ tr' = write l1 m ColorRed (ErrorString e) tr
    | None, None => tr' = tr
    | _, _ => False
    end.
Proof.
  destruct l as [l0|]; cbn [Error]; do 2 eexists; (split; [reflexivity|]);
    cbn; auto.
Qed.

(** C10.  On a nil receiver [Applyf] and [Skipf] return nil and [Error]
    returns the error it was given (nil or not); none of them panics,
    there is no counter to touch, and the trace of output is as it
    was. *)
Theorem nil_Logger_is_safe (m : Migration) (body : string) (args : list Any)
    (err : error) (tr : Trace) :
  Applyf None m body args tr = (None, tr, None) /\
  Skipf None m body args tr = (None, tr, None) /\
  Error None m err tr = Ret (None, tr, err).
Proof. repeat split. Qed.

End LoggerFacts.

(** ** Statements *)

Section StatementsFacts.
Context {E : Env}.

(** C3.  [Invoke] hands the statements to the driver one at a time, in
    the order of the list, each under the given transaction and on the
    database the one before left.  It returns nil when every statement
    of the list was executed and succeeded; it returns the error [e] as
    soon as a statement fails with [e]: the statements before it
    succeeded, it is the last one executed, and the rest of the list
    ([rest]) is never handed to the driver. *)
Theorem Statements_Invoke_sequential (bs : bodyStatements) (c : Connection) (tx : Tx) :
  exists executed : list (string * error),
    calls (fst (Invoke bs c tx)) = calls c ++ map (execCall tx) executed /\
    ran tx (db c) executed (db (fst (Invoke bs c tx))) /\
    match snd (Invoke bs c tx) with
    | None => map fst executed = bs /\ Forall succeeded executed
    | Some e =>
        exists before failing rest,
          bs = map fst before ++ failing :: rest /\
          executed = before ++ [(failing, Some e)] /\
          Forall succeeded before
    end.
Proof.
  revert c. induction bs as [|step bs IH]; intros c.
  - exists []. cbn. rewrite app_nil_r. auto.
  - cbn [Invoke]. unfold ExecInTx, ExecInTxWithCacheLabel.
    destruct (InvocationExec tx step step [] (db c)) as [d err] eqn:Hexec.
    destruct err as [e|].
    + exists [(step, Some e)]. cbn. repeat split; eauto.
      exists [], step, bs. cbn. auto.
    + match goal with |- context [Invoke bs ?c1 tx] => destruct (IH c1) as (ex & Hcalls & Hran & Hres) end.
      exists ((step, None) :: ex). cbn [calls db] in Hcalls, Hran.
      split; [|split].
      * rewrite Hcalls. cbn. now rewrite <- app_assoc.
      * cbn. eauto.
      * destruct (snd (Invoke bs _ tx)) as [e|].
        -- destruct Hres as (before & failing & rest & -> & -> & Hok).
           exists ((step, None) :: before), failing, rest. cbn.
           repeat split; auto. constructor; [reflexivity | assumption].
        -- destruct Hres as [<- Hok]. split; [reflexivity|].
           constructor; [reflexivity | assumption].
Qed.

End StatementsFacts.

(** ** Guards *)

Section GuardFacts.
Context {E : Env}.

Lemma exists_notExists_exclusive (q : Introspection) (tx : Tx) (d : DB) :
  fst (exists_ q tx d) && fst (notExists q tx d) = false.
Proof.
  unfold exists_, notExists.
  destruct (QueryIsEmpty q tx d) as [[|] [e|]]; reflexivity.
Qed.

(** C5.  On one database state (and transaction), [Evaluate] never
    answers "should apply" for both Guards of an existence pair. *)
Theorem Evaluate_pair_exclusive (tx : Tx) (d : DB) :
  (forall name,
     fst (Evaluate (TableExists name) tx d)
     && fst (Evaluate (TableNotExists name) tx d) = false) /\
  (forall table column,
     fst (Evaluate (ColumnExists table column) tx d)
     && fst (Evaluate (ColumnNotExists table column) tx d) = false) /\
  (forall name,
     fst (Evaluate (ConstraintExists name) tx d)
     && fst (Evaluate (ConstraintNotExists name) tx d) = false) /\
  (forall table name,
     fst (Evaluate (IndexExists table name) tx d)
     && fst (Evaluate (IndexNotExists table name) tx d) = false) /\
  (forall name,
     fst (Evaluate (RoleExists name) tx d)
     && fst (Evaluate (RoleNotExists name) tx d) = false).
Proof.
  repeat split; intros; cbn [Evaluate];
    unfold tableExists, columnExists, constraintExists, indexExists, roleExists;
    apply exists_notExists_exclusive.
Qed.

End GuardFacts.

(** ** Steps *)

Section StepFacts.
Context {E : Env}.

(** C1.  [Step.Apply] evaluates the Guard first.  An error of the Guard
    is reported through [Error] and returned, and the connection has
    seen the Guard's evaluation only; on "should not apply" the Step is
    reported through [Skipf], nil is returned, and again the connection
    has seen the Guard's evaluation only.  The Invocable is invoked
    only on "should apply" without error; its error is reported
    through [Error] and returned, its success is reported through
    [Applyf]. *)
Theorem Step_Apply_guarded (parent : option Migration) (label : string)
    (guard : Guard) (invocable : Invocable) (tx : Tx) (w : World) :
  let step := migration label parent in
  let evaluated := record (CallGuard step tx) (conn w) in
  let r := Apply parent (NewStep label guard invocable) tx w in
  match Evaluate guard tx (db (conn w)) with
  | (_, Some e) =>
      exists l tr,
        Error (reporter w) step (Some e) (output w) = Ret (l, tr, Some e) /\
        r = Ret ({| conn := evaluated; reporter := l; output := tr |}, Some e)
  | (false, None) =>
      exists l tr,
        Skipf (reporter w) step (guardDescription guard) [] (output w) = (l, tr, None) /\
        r = Ret ({| conn := evaluated; reporter := l; output := tr |}, None)
  | (true, None) =>
      let invoked := record (CallInvocable step tx) evaluated in
      match InvocableInvoke invocable invoked tx with
      | (c, Some e) =>
          exists l tr,
            Error (reporter w) step (Some e) (output w) = Ret (l, tr, Some e) /\
            r = Ret ({| conn := c; reporter := l; output := tr |}, Some e)
      | (c, None) =>
          exists l tr,
            Applyf (reporter w) step applySummary [] (output w) = (l, tr, None) /\
            r = Ret ({| conn := c; reporter := l; output := tr |}, None)
      end
  end.
Proof.
  cbn zeta. cbn [Apply]. unfold StepApply. cbn [record db].
  destruct (Evaluate guard tx (db (conn w))) as [shouldApply [e|]].
  - destruct (Error_Ret (reporter w) (migration label parent) e (output w))
      as (l & tr & ->). cbn [bind]. destruct shouldApply; eauto.
  - destruct shouldApply; cbn [negb].
    + destruct (InvocableInvoke invocable _ tx) as [c [e|]].
      * destruct (Error_Ret (reporter w) (migration label parent) e (output w))
          as (l & tr & ->). cbn [bind]. eauto.
      * destruct (reporter w); cbn [Applyf]; eauto.
    + destruct (reporter w); cbn [Skipf]; eauto.
Qed.

End StepFacts.

(** ** Groups *)

Section GroupFacts.
Context {E : Env}.

(** Induction on a tree, with the property at hand for every child of
    a Group. *)
Lemma Tree_children_ind (P : Tree -> Prop)
    (Hstep : forall label guard invocable, P (NewStep label guard invocable))
    (Hgroup : forall label abort children,
        Forall P children -> P (NewGroup label abort children)) :
  forall t, P t.
Proof.
  fix IH 1. intros [label guard invocable|label abort children].
  - apply Hstep.
  - apply Hgroup. induction children as [|child rest IHrest].
    + constructor.
    + constructor; [apply IH | exact IHrest].
Qed.

Lemma Invoke_calls (bs : bodyStatements) (c : Connection) (tx : Tx) :
  exists made, calls (fst (Invoke bs c tx)) = calls c ++ made.
Proof.
  revert c. induction bs as [|step bs IH]; intros c; cbn [Invoke].
  - exists []. cbn. now rewrite app_nil_r.
  - unfold ExecInTx, ExecInTxWithCacheLabel.
    destruct (InvocationExec tx step step [] (db c)) as [d [e|]].
    + cbn. eauto.
    + match goal with |- context [Invoke bs ?c1 tx] => destruct (IH c1) as [made Hm] end.
      rewrite Hm. cbn. rewrite <- app_assoc. eauto.
Qed.

Lemma InvocableInvoke_calls (i : Invocable) (c : Connection) (tx : Tx) :
  exists made, calls (fst (InvocableInvoke i c tx)) = calls c ++ made.
Proof.
  destruct i as [sql|action]; cbn [InvocableInvoke].
  - apply Invoke_calls.
  - destruct (action tx (db c)). exists []. cbn. now rewrite app_nil_r.
Qed.

Lemma StepApply_returns step guard invocable tx w :
  returns w (StepApply step guard invocable tx w).
Proof.
  unfold returns, StepApply.
  destruct (Evaluate guard tx _) as [shouldApply [e|]].
  - destruct (Error_Ret (reporter w) step e (output w)) as (l & tr & ->).
    do 3 eexists. split; reflexivity.
  - destruct shouldApply; cbn [negb].
    + destruct (InvocableInvoke_calls invocable
                  (record (CallInvocable step tx) (record (CallGuard step tx) (conn w))) tx)
        as [made Hm].
      destruct (InvocableInvoke invocable _ tx) as [c [e|]]; cbn [fst] in Hm.
      * destruct (Error_Ret (reporter w) step e (output w)) as (l & tr & ->).
        cbn [bind]. do 3 eexists. split; [reflexivity|]. cbn [conn].
        rewrite Hm. cbn. rewrite <- !app_assoc. reflexivity.
      * destruct (Applyf (reporter w) step applySummary [] (output w)) as [[l tr] ?].
        do 3 eexists. split; [reflexivity|]. cbn [conn].
        rewrite Hm. cbn. rewrite <- !app_assoc. reflexivity.
    + destruct (Skipf (reporter w) step _ [] (output w)) as [[l tr] ?].
      do 3 eexists. split; reflexivity.
Qed.

Lemma applyChildren_returns apply abort children :
  Forall (fun child => forall w, returns w (apply child w)) children ->
  forall w first, returns w (applyChildren apply abort children w first).
Proof.
  induction 1 as [|child rest Hchild _ IH]; intros w first; cbn [applyChildren].
  - exists w, first, []. now rewrite app_nil_r.
  - destruct (Hchild w) as (w1 & err & made & -> & Hm). cbn [bind].
    assert (Hrest : forall f, returns w (applyChildren apply abort rest w1 f)).
    { intros f. destruct (IH w1 f) as (w2 & err2 & made2 & -> & Hm2).
      exists w2, err2, (made ++ made2). now rewrite Hm2, Hm, app_assoc. }
    destruct err as [e|]; [destruct abort|]; auto.
    exists w1, (Some e), made. auto.
Qed.

Lemma Apply_returns (t : Tree) :
  forall parent tx w, returns w (Apply parent t tx w).
Proof.
  induction t as [label guard invocable|label abort children IH]
    using Tree_children_ind; intros parent tx w; cbn [Apply].
  - apply StepApply_returns.
  - apply applyChildren_returns.
    eapply Forall_impl; [|exact IH]. cbn. auto.
Qed.

Lemma attempts_length apply children :
  forall w errs w',
    attempts apply children w = Ret (errs, w') -> List.length errs = List.length children.
Proof.
  induction children as [|child rest IH]; intros w errs w' H; cbn [attempts] in H.
  - now inversion H.
  - destruct (apply child w) as [[w1 err]|]; [|discriminate]. cbn [bind] in H.
    destruct (attempts apply rest w1) as [[errs1 w2]|] eqn:Hrest; [|discriminate].
    cbn [bind] in H. inversion H; subst. cbn. f_equal. eauto.
Qed.

Lemma firstError_allNil (errs : list error) :
  firstError errs = None <-> allNil errs = true.
Proof.
  induction errs as [|[e|] errs IH]; cbn; [tauto | split; discriminate | exact IH].
Qed.

(** Children that all succeed are passed over by the loop. *)
Lemma applyChildren_succeeded apply abort pre :
  forall rest w first errs w1,
    attempts apply pre w = Ret (errs, w1) -> allNil errs = true ->
    applyChildren apply abort (pre ++ rest) w first
    = applyChildren apply abort rest w1 first.
Proof.
  induction pre as [|child pre IH]; intros rest w first errs w1 H Hnil;
    cbn [attempts] in H.
  - now inversion H.
  - cbn [app applyChildren].
    destruct (apply child w) as [[w0 err]|]; [|discriminate]. cbn [bind] in *.
    destruct (attempts apply pre w0) as [[errs0 w2]|] eqn:Hpre; [|discriminate].
    cbn [bind] in H. inversion H; subst. cbn [allNil forallb] in Hnil.
    destruct err; [discriminate|]. eauto.
Qed.

(** Without abort the loop attempts every child and keeps the first
    error. *)
Lemma applyChildren_continue apply children :
  forall w first errs w',
    attempts apply children w = Ret (errs, w') ->
    applyChildren apply false children w first
    = Ret (w', match first with None => firstError errs | Some _ => first end).
Proof.
  induction children as [|child rest IH]; intros w first errs w' H;
    cbn [attempts] in H.
  - inversion H; subst. cbn. now destruct first.
  - cbn [applyChildren].
    destruct (apply child w) as [[w0 err]|]; [|discriminate]. cbn [bind] in *.
    destruct (attempts apply rest w0) as [[errs0 w2]|] eqn:Hrest; [|discriminate].
    cbn [bind] in H. inversion H; subst.
    destruct err, first; cbn [firstError]; rewrite (IH _ _ _ _ Hrest); reflexivity.
Qed.

(** C2.  With [shouldAbortOnError], a Group whose children before
    [child] succeeded and whose [child] returns [e] returns [e] in the
    world [child] left: whatever siblings come later ([post]), none is
    applied; when every child succeeds it returns nil.  Without it, the
    Group attempts every child, one error per child, and returns the
    first error among them, which is nil exactly when every child
    succeeded. *)
Theorem Group_Apply_abort_policy (parent : option Migration) (label : string) (tx : Tx) :
  let apply := fun child w => Apply (Some (migration label parent)) child tx w in
  (forall pre child post w errs w1 w2 e,
      attempts apply pre w = Ret (errs, w1) -> allNil errs = true ->
      apply child w1 = Ret (w2, Some e) ->
      Apply parent (NewGroup label true (pre ++ child :: post)) tx w
      = Ret (w2, Some e)) /\
  (forall children w errs w',
      attempts apply children w = Ret (errs, w') -> allNil errs = true ->
      Apply parent (NewGroup label true children) tx w = Ret (w', None)) /\
  (forall children w errs w',
      attempts apply children w = Ret (errs, w') ->
      Apply parent (NewGroup label false children) tx w = Ret (w', firstError errs)
      /\ List.length errs = List.length children
      /\ (firstError errs = None <-> allNil errs = true)).
Proof.
  intros apply. split; [|split].
  - intros pre child post w errs w1 w2 e Hpre Hnil Hchild. cbn [Apply].
    fold apply. rewrite (applyChildren_succeeded _ _ _ _ _ _ _ _ Hpre Hnil).
    cbn [applyChildren]. rewrite Hchild. reflexivity.
  - intros children w errs w' Hall Hnil. cbn [Apply]. fold apply.
    rewrite <- (app_nil_r children).
    rewrite (applyChildren_succeeded _ _ _ _ _ _ _ _ Hall Hnil). reflexivity.
  - intros children w errs w' Hall. cbn [Apply]. fold apply.
    rewrite (applyChildren_continue _ _ _ _ _ _ Hall).
    split; [reflexivity|]. split; [eapply attempts_length; eassumption|].
    apply firstError_allNil.
Qed.

(** C9.  One pass over a Group with children [A; B; C].  [A] is applied
    first, in the world the Group was given.  [B] is applied, if at
    all, in the world [A]'s Apply returned, and [C], if at all, in the
    world [B]'s Apply returned: every call made for [B] (its Guard's
    evaluation, its Invocable) comes after the calls of [A], every call
    made for [C] after those of [B].  The pass ends with the last child
    applied. *)
Theorem Group_Apply_in_order (parent : option Migration) (label : string)
    (abort : bool) (A B C : Tree) (tx : Tx) (w : World) :
  let apply := fun child w => Apply (Some (migration label parent)) child tx w in
  let pass := Apply parent (NewGroup label abort [A; B; C]) tx w in
  exists wA eA madeA,
    apply A w = Ret (wA, eA) /\
    calls (conn wA) = calls (conn w) ++ madeA /\
    if stops abort eA then pass = Ret (wA, eA)
    else
      exists wB eB madeB,
        apply B wA = Ret (wB, eB) /\
        calls (conn wB) = calls (conn w) ++ madeA ++ madeB /\
        if stops abort eB then pass = Ret (wB, eB)
        else
          exists wC eC madeC,
            apply C wB = Ret (wC, eC) /\
            calls (conn wC) = calls (conn w) ++ madeA ++ madeB ++ madeC /\
            exists err, pass = Ret (wC, err).
Proof.
  intros apply pass.
  destruct (Apply_returns A (Some (migration label parent)) tx w)
    as (wA & eA & madeA & HA & HmA).
  destruct (Apply_returns B (Some (migration label parent)) tx wA)
    as (wB & eB & madeB & HB & HmB).
  destruct (Apply_returns C (Some (migration label parent)) tx wB)
    as (wC & eC & madeC & HC & HmC).
  rewrite HmA in HmB. rewrite HmB in HmC. rewrite <- app_assoc in HmB.
  rewrite <- !app_assoc in HmC.
  subst pass apply. cbn beta. cbn [Apply applyChildren].
  exists wA, eA, madeA. split; [exact HA|]. split; [exact HmA|].
  rewrite HA. cbn [bind].
  destruct eA as [a|], abort; cbn [stops]; try reflexivity;
    exists wB, eB, madeB; (split; [exact HB|]); (split; [exact HmB|]);
    rewrite HB; cbn [bind];
    destruct eB as [b|]; cbn [stops]; try reflexivity;
    exists wC, eC, madeC; (split; [exact HC|]); (split; [exact HmC|]);
    rewrite HC; cbn [bind];
    destruct eC; eauto.
Qed.

End GroupFacts.

(** ** Applying a tree twice *)

Lemma int_wrap_range (z : Z) : int_min <= int_wrap z <= int_max.
Proof.
  unfold int_wrap, int_min, int_max.
  pose proof (Z.mod_pos_bound (z + 2 ^ 63) (2 ^ 64) ltac:(lia)). lia.
Qed.

Lemma int_wrap_small (z : Z) : int_min <= z <= int_max -> int_wrap z = z.
Proof.
  unfold int_wrap, int_min, int_max. intros H. rewrite Z.mod_small; lia.
Qed.

Lemma int_wrap_add (a b : Z) : int_wrap (int_wrap a + b) = int_wrap (a + b).
Proof.
  unfold int_wrap. f_equal.
  replace ((a + 2 ^ 63) mod 2 ^ 64 - 2 ^ 63 + b + 2 ^ 63)
    with ((a + 2 ^ 63) mod 2 ^ 64 + b) by lia.
  rewrite Z.add_mod_idemp_l by lia. f_equal. lia.
Qed.

Section TwiceFacts.
Context {E : Env}.

Lemma applyChildren_first_kept apply abort children :
  forall w e w' err,
    applyChildren apply abort children w (Some e) = Ret (w', err) -> err <> None.
Proof.
  induction children as [|child rest IH]; intros w e w' err H;
    cbn [applyChildren] in H.
  - inversion H. discriminate.
  - destruct (apply child w) as [[w0 [e0|]]|]; cbn [bind] in H;
      [destruct abort| |discriminate]; eauto.
    inversion H. discriminate.
Qed.

Section FirstRun.
Variable tx : Tx.
Variable S : list (Guard * Invocable).
Hypothesis Hreflects : forall g i, In (g, i) S -> reflects tx g i.
Hypothesis Hpreserves :
  forall g i g' i', In (g, i) S -> In (g', i') S -> preserves tx i' g.

Lemma StepApply_settles step guard invocable w w1 :
  In (guard, invocable) S ->
  StepApply step guard invocable tx w = Ret (w1, None) ->
  settles tx S [(guard, invocable)] w w1.
Proof.
  intros Hin H. unfold StepApply in H. cbn [record db] in H.
  destruct (Evaluate guard tx (db (conn w))) as [shouldApply [e|]] eqn:Hg.
  - destruct (Error_Ret (reporter w) step e (output w)) as (l & tr & Herr).
    rewrite Herr in H. discriminate.
  - destruct shouldApply; cbn [negb] in H.
    + destruct (InvocableInvoke invocable _ tx) as [c [e|]] eqn:Hi.
      * destruct (Error_Ret (reporter w) step e (output w)) as (l & tr & Herr).
        rewrite Herr in H. discriminate.
      * destruct (Applyf (reporter w) step applySummary [] (output w)) as [[l tr] ?].
        inversion H; subst. cbn [conn]. split.
        -- intros g i Hgi Hset. eapply (Hpreserves g i guard invocable Hgi Hin);
             [|exact Hi]. exact Hset.
        -- intros g i [Heq|[]]. inversion Heq; subst.
           eapply (Hreflects g i Hin). exact Hi.
    + destruct (Skipf (reporter w) step _ [] (output w)) as [[l tr] ?].
      inversion H; subst. cbn [conn record db]. split; [auto|].
      intros g i [Heq|[]]. inversion Heq; subst. exact Hg.
Qed.

Lemma applyChildren_settles apply abort children :
  Forall (fun child => forall w w1,
            incl (steps child) S ->
            apply child w = Ret (w1, None) -> settles tx S (steps child) w w1) children ->
  incl (flat_map steps children) S ->
  forall w w1,
    applyChildren apply abort children w None = Ret (w1, None) ->
    settles tx S (flat_map steps children) w w1.
Proof.
  induction 1 as [|child rest Hchild _ IH]; intros Hincl w w1 H;
    cbn [applyChildren flat_map] in *.
  - inversion H; subst. split; [auto | intros g i []].
  - apply incl_app_inv in Hincl. destruct Hincl as [Hc Hr].
    destruct (apply child w) as [[w0 [e|]]|] eqn:Ha; cbn [bind] in H;
      [| |discriminate].
    + destruct abort; [discriminate|].
      now apply applyChildren_first_kept in H.
    + destruct (Hchild w w0 Hc Ha) as [Hkeep0 Hset0].
      destruct (IH Hr w0 w1 H) as [Hkeep1 Hset1].
      split.
      * intros g i Hgi Hs. eauto.
      * intros g i Hgi. apply in_app_or in Hgi. destruct Hgi as [Hgi|Hgi].
        -- apply (Hkeep1 g i (Hc _ Hgi)). eauto.
        -- eauto.
Qed.

Lemma Apply_settles (t : Tree) :
  forall parent w w1,
    incl (steps t) S ->
    Apply parent t tx w = Ret (w1, None) -> settles tx S (steps t) w w1.
Proof.
  induction t as [label guard invocable|label abort children IH]
    using Tree_children_ind; intros parent w w1 Hincl H; cbn [Apply steps] in *.
  - apply (StepApply_settles _ _ _ _ _ (Hincl _ (or_introl eq_refl)) H).
  - eapply applyChildren_settles; [|exact Hincl|exact H].
    eapply Forall_impl; [|exact IH]. cbn. eauto.
Qed.

End FirstRun.

Lemma StepApply_skips step guard invocable tx w l :
  reporter w = Some l -> settled tx guard (db (conn w)) ->
  exists w2, StepApply step guard invocable tx w = Ret (w2, None) /\ skips 1 w w2.
Proof.
  intros Hl Hg. unfold StepApply. cbn [record db]. unfold settled in Hg.
  rewrite Hg, Hl. cbn [negb Skipf]. eexists. split; [reflexivity|].
  exists l, (set_skipped l). cbn. rewrite Hl. repeat split.
Qed.

Lemma skips_trans n m w w1 w2 :
  skips n w w1 -> skips m w1 w2 -> skips (n + m) w w2.
Proof.
  intros (l & l1 & Hl & Hl1 & Hd & Ha & Hf & Hs)
         (l1' & l2 & Hl1' & Hl2 & Hd' & Ha' & Hf' & Hs').
  rewrite Hl1 in Hl1'. inversion Hl1'; subst l1'.
  exists l, l2. repeat split; try congruence.
  rewrite Hs', Hs, int_wrap_add. f_equal. lia.
Qed.

Lemma applyChildren_skips tx apply abort children :
  Forall (fun child => forall w l,
            reporter w = Some l ->
            (forall g i, In (g, i) (steps child) -> settled tx g (db (conn w))) ->
            int_min <= skipped l <= int_max ->
            exists w2, apply child w = Ret (w2, None)
                       /\ skips (countSteps child) w w2) children ->
  forall w l,
    reporter w = Some l -> int_min <= skipped l <= int_max ->
    (forall g i, In (g, i) (flat_map steps children) -> settled tx g (db (conn w))) ->
    exists w2,
      applyChildren apply abort children w None = Ret (w2, None)
      /\ skips (fold_right (fun c n => countSteps c + n)%nat 0%nat children) w w2.
Proof.
  induction 1 as [|child rest Hchild _ IH]; intros w l Hl Hrange Hset;
    cbn [applyChildren fold_right flat_map] in *.
  - exists w. split; [reflexivity|]. exists l, l. repeat split; auto.
    rewrite Z.add_0_r. symmetry. now apply int_wrap_small.
  - destruct (Hchild w l Hl) as (w1 & Ha & Hs1); [|exact Hrange|].
    { intros g i Hgi. apply (Hset g i). apply in_or_app. auto. }
    rewrite Ha. cbn [bind].
    pose proof Hs1 as (l' & l1 & Hl' & Hl1 & Hd & _ & _ & Hsk).
    destruct (IH w1 l1 Hl1) as (w2 & Hr & Hs2).
    { rewrite Hsk. apply int_wrap_range. }
    { intros g i Hgi. rewrite Hd. apply (Hset g i). apply in_or_app. auto. }
    exists w2. split; [exact Hr|]. eapply skips_trans; eassumption.
Qed.

Lemma Apply_skips tx (t : Tree) :
  forall parent w l,
    reporter w = Some l ->
    (forall g i, In (g, i) (steps t) -> settled tx g (db (conn w))) ->
    int_min <= skipped l <= int_max ->
    exists w2, Apply parent t tx w = Ret (w2, None) /\ skips (countSteps t) w w2.
Proof.
  induction t as [label guard invocable|label abort children IH]
    using Tree_children_ind; intros parent w l Hl Hset Hrange;
    cbn [Apply steps countSteps] in *.
  - apply (StepApply_skips _ _ _ _ _ l Hl). apply (Hset guard invocable). now left.
  - eapply applyChildren_skips; eauto.
    eapply Forall_impl; [|exact IH]. cbn. eauto.
Qed.

(** C4, as the model has it.  Let every Step's Guard reflect its
    Invocable's post-condition, let no Invocable of the tree undo the
    desired state of a Step of the tree, and let the first application
    return nil.  Then the second application, on the database the
    first one left and with a fresh Reporter, returns nil, leaves the
    database as it is, and counts applied = 0, failed = 0 and
    skipped = N, the number of Steps of the tree (as a Go [int]). *)
Theorem second_run_skips_every_Step (parent : option Migration) (t : Tree)
    (tx : Tx) (w w1 : World) (o : option OutputLogger) (phase : string) :
  (forall g i, In (g, i) (steps t) -> reflects tx g i) ->
  (forall g i g' i',
      In (g, i) (steps t) -> In (g', i') (steps t) -> preserves tx i' g) ->
  Apply parent t tx w = Ret (w1, None) ->
  exists w2 l2,
    Apply parent t tx (secondRun w1 (freshLogger o phase)) = Ret (w2, None) /\
    reporter w2 = Some l2 /\
    applied l2 = 0 /\
    skipped l2 = int_wrap (Z.of_nat (countSteps t)) /\
    failed l2 = 0 /\
    db (conn w2) = db (conn w1).
Proof.
  intros Hreflects Hpreserves Hfirst.
  destruct (Apply_settles tx (steps t) Hreflects Hpreserves t parent w w1
              (incl_refl _) Hfirst) as [_ Hset].
  destruct (Apply_skips tx t parent (secondRun w1 (freshLogger o phase))
              (freshLogger o phase) eq_refl) as (w2 & Hsecond & Hskips).
  - exact Hset.
  - cbn. unfold int_min, int_max. lia.
  - destruct Hskips as (l & l2 & Hl & Hl2 & Hd & Ha & Hf & Hs).
    cbn [secondRun reporter] in Hl. inversion Hl; subst l.
    exists w2, l2. cbn in Ha, Hf, Hs, Hd. auto 10.
Qed.

End TwiceFacts.

(** ** The model at work on the in-memory database *)

Module MemoryFacts.
Import Memory.
#[local] Existing Instance env.

Lemma hasTable_dropTable (t : string) (d : list string) :
  hasTable t (dropTable t d) = false.
Proof.
  unfold hasTable, dropTable. induction d as [|x d IH]; cbn; [reflexivity|].
  destruct (String.eqb t x) eqn:Hx; cbn; [exact IH|].
  now rewrite Hx.
Qed.

Lemma create_succeeded (t : string) (c c' : Connection) (tx : Tx) :
  String.prefix "CREATE TABLE " ("CREATE TABLE " +s+ t) = true ->
  after "CREATE TABLE " ("CREATE TABLE " +s+ t) = t ->
  InvocableInvoke (Statements ["CREATE TABLE " +s+ t]) c tx = (c', None) ->
  db c' = t :: db c.
Proof.
  intros Hp Ha. cbn [InvocableInvoke Invoke].
  unfold ExecInTx, ExecInTxWithCacheLabel. cbn [InvocationExec env].
  unfold exec. rewrite Hp, Ha.
  destruct (hasTable t (db c)); intros H; inversion H. reflexivity.
Qed.

Lemma drop_succeeded (c c' : Connection) (tx : Tx) :
  InvocableInvoke (Statements ["DROP TABLE t"]) c tx = (c', None) ->
  db c' = dropTable "t" (db c).
Proof.
  cbn [InvocableInvoke Invoke].
  unfold ExecInTx, ExecInTxWithCacheLabel. cbn [InvocationExec env].
  unfold exec. cbn [String.prefix]. 
  change (String.prefix "CREATE TABLE " "DROP TABLE t") with false.
  change (String.prefix "DROP TABLE " "DROP TABLE t") with true.
  change (after "DROP TABLE " "DROP TABLE t") with "t". cbv iota.
  destruct (hasTable "t" (db c)); intros H; inversion H. reflexivity.
Qed.

Lemma settled_TableNotExists (tx : Tx) (t : string) (d : list string) :
  settled tx (TableNotExists t) d <-> hasTable t d = true.
Proof.
  unfold settled. cbn. destruct (hasTable t d); cbn; split; congruence.
Qed.

Lemma settled_TableExists (tx : Tx) (t : string) (d : list string) :
  settled tx (TableExists t) d <-> hasTable t d = false.
Proof.
  unfold settled. cbn. destruct (hasTable t d); cbn; split; congruence.
Qed.

Lemma hasTable_cons (t x : string) (d : list string) :
  hasTable t d = true -> hasTable t (x :: d) = true.
Proof. unfold hasTable. cbn. intros ->. apply orb_true_r. Qed.

Lemma hasTable_head (t : string) (d : list string) : hasTable t (t :: d) = true.
Proof. unfold hasTable. cbn. now rewrite String.eqb_refl. Qed.

(** The line of a report: phase, result, breadcrumb, body. *)
Example breadcrumb_of_a_nested_step :
  renderStack 1%nat
    (migration "leaf"
       (Some (migration "tables" (Some (migration "" (Some (migration "schema" None)))))))
    ColorRed
  = "> schema > tables".
Proof. reflexivity. Qed.

Example report_of_recreate :
  map (fun x => msg_format (snd x))
    (output (worldOf (Apply None recreate None
                        (emptyWorld [] (Some (freshLogger (Some 1%nat) "apply"))))
               (emptyWorld [] None)))
  = ["apply -- skipped > recreate -- table t exists";
     "apply -- applied > recreate -- done"].
Proof. reflexivity. Qed.

Example statements_stop_at_the_first_error :
  Invoke ["CREATE TABLE t"; "CREATE TABLE t"; "DROP TABLE t"]
    {| db := []; calls := [] |} None
  = ({| db := ["t"];
        calls := [CallExec None "CREATE TABLE t" "CREATE TABLE t" [] None;
                  CallExec None "CREATE TABLE t" "CREATE TABLE t" []
                    (Some "relation t already exists")] |},
     Some "relation t already exists").
Proof. reflexivity. Qed.

Lemma recreate_reflects (tx : Tx) :
  forall g i, In (g, i) (steps recreate) -> reflects tx g i.
Proof.
  intros g i [H|[H|[]]]; inversion H; subst; intros c c' Hi.
  - apply drop_succeeded in Hi. rewrite Hi.
    apply settled_TableExists, hasTable_dropTable.
  - apply (create_succeeded "t" c c' tx eq_refl eq_refl) in Hi. rewrite Hi.
    apply settled_TableNotExists, hasTable_head.
Qed.

Lemma schema_reflects (tx : Tx) :
  forall g i, In (g, i) (steps schema) -> reflects tx g i.
Proof.
  intros g i [H|[H|[]]]; inversion H; subst; intros c c' Hi.
  - apply (create_succeeded "t" c c' tx eq_refl eq_refl) in Hi. rewrite Hi.
    apply settled_TableNotExists, hasTable_head.
  - apply (create_succeeded "u" c c' tx eq_refl eq_refl) in Hi. rewrite Hi.
    apply settled_TableNotExists, hasTable_head.
Qed.

Lemma schema_preserves (tx : Tx) :
  forall g i g' i',
    In (g, i) (steps schema) -> In (g', i') (steps schema) -> preserves tx i' g.
Proof.
  intros g i g' i' Hgi [H'|[H'|[]]]; inversion H'; subst; intros c c' Hs Hi;
    [apply (create_succeeded "t" c c' tx eq_refl eq_refl) in Hi
    |apply (create_succeeded "u" c c' tx eq_refl eq_refl) in Hi];
    rewrite Hi; destruct Hgi as [H|[H|[]]]; inversion H; subst;
    apply settled_TableNotExists, hasTable_cons;
    now apply settled_TableNotExists in Hs.
Qed.

End MemoryFacts.

(** ** Witnesses and counterexamples *)

(** C6 as stated fails: a Logger without [Output] counts the applied
    Step and emits no report line. *)
Lemma Applyf_without_Output_emits_nothing :
  let l := @freshLogger Memory.env None "apply" in
  exists l' tr',
    Applyf (Some l) (migration "step" None) "created" [] [] = (Some l', tr', None) /\
    applied l' = 1 /\ tr' = [] /\ ~ emits 1 [] tr'.
Proof.
  cbn zeta. do 2 eexists. split; [reflexivity|]. split; [reflexivity|].
  split; [reflexivity|]. intros (lines & Hlines & Hlen).
  destruct lines; discriminate.
Qed.

(** The three children of the witness of C2: the second one fails. *)
Lemma Group_Apply_abort_policy_witness :
  let w := Memory.emptyWorld [] None in
  let children := [Memory.createStep; Memory.badStep; Memory.dropStep] in
  (exists w2,
     Apply None (NewGroup "g" true children) None w = Ret (w2, Some "syntax error")
     /\ db (conn w2) = ["t"]) /\
  (exists w',
     Apply None (NewGroup "g" false children) None w = Ret (w', Some "syntax error")
     /\ db (conn w') = []).
Proof.
  cbn zeta. split.
  - eexists. split.
    + eapply (proj1 (Group_Apply_abort_policy (E := Memory.env) None "g" None)
                [Memory.createStep] Memory.badStep [Memory.dropStep]
                (Memory.emptyWorld [] None) [None]); reflexivity.
    + reflexivity.
  - eexists. split.
    + apply (proj1 (proj2 (proj2
               (Group_Apply_abort_policy (E := Memory.env) None "g" None))
               [Memory.createStep; Memory.badStep; Memory.dropStep]
               (Memory.emptyWorld [] None)
               [None; Some "syntax error"; None] _ eq_refl)).
    + reflexivity.
Defined.

(** C4 as stated fails: both Guards of [recreate] reflect the
    post-condition of their Invocable and both runs return nil, yet the
    second run applies both Steps again. *)
Lemma recreate_second_run_applies :
  (forall tx g i, In (g, i) (steps Memory.recreate) -> reflects tx g i) /\
  exists w1 w2 l2,
    Apply None Memory.recreate None (Memory.emptyWorld [] None) = Ret (w1, None) /\
    Apply None Memory.recreate None (secondRun w1 (freshLogger None "apply"))
    = Ret (w2, None) /\
    reporter w2 = Some l2 /\
    countSteps Memory.recreate = 2%nat /\ applied l2 = 2 /\ skipped l2 = 0.
Proof.
  split; [exact MemoryFacts.recreate_reflects|].
  do 3 eexists. split; [reflexivity|]. split; [reflexivity|].
  split; [reflexivity|]. repeat split.
Qed.

(** The two tables of [schema], created by the first run, are both
    skipped by the second. *)
Lemma second_run_skips_every_Step_witness :
  let first := Apply None Memory.schema None (Memory.emptyWorld [] None) in
  let w1 := Memory.worldOf first (Memory.emptyWorld [] None) in
  first = Ret (w1, None) /\
  exists w2 l2,
    Apply None Memory.schema None (secondRun w1 (@freshLogger Memory.env (Some 0%nat) "apply"))
    = Ret (w2, None) /\
    reporter w2 = Some l2 /\
    applied l2 = 0 /\
    skipped l2 = int_wrap (Z.of_nat (countSteps Memory.schema)) /\
    failed l2 = 0 /\
    db (conn w2) = db (conn w1).
Proof.
  cbn zeta. split; [reflexivity|].
  apply (second_run_skips_every_Step (E := Memory.env) None Memory.schema None
           (Memory.emptyWorld [] None)).
  - exact (MemoryFacts.schema_reflects None).
  - exact (MemoryFacts.schema_preserves None).
  - reflexivity.
Defined.

(** * Further properties *)

(** ** The Logger over a whole run *)

Lemma last_cons {A} (a : A) (l : list A) (d : A) : last (a :: l) d = last l a.
Proof.
  revert a d. induction l as [|b l IH]; intros a d; [reflexivity|].
  change (last (a :: b :: l) d) with (last (b :: l) d).
  now rewrite !IH.
Qed.

Lemma incremented_succ (n : nat) (x : Z) :
  incremented (S n) x = incremented n (int_add x 1).
Proof.
  unfold incremented. induction n as [|n IH]; [reflexivity|].
  change (int_add (Nat.iter (S n) (fun z => int_add z 1) x) 1
          = int_add (Nat.iter n (fun z => int_add z 1) (int_add x 1)) 1).
  now rewrite IH.
Qed.

Lemma incremented_zero (n : nat) : incremented n 0 = int_wrap (Z.of_nat n).
Proof.
  induction n as [|n IH]; [reflexivity|].
  change (incremented (S n) 0) with (int_add (incremented n 0) 1).
  rewrite IH. unfold int_add. rewrite int_wrap_add. f_equal. lia.
Qed.

Section RunFacts.
Context {E : Env}.

Lemma write_appends (l : Logger) m color body tr :
  exists lines,
    write l m color body tr = tr ++ lines /\
    match Output l with
    | Some o => exists msg, lines = [(o, msg)] /\ msg_flag msg = Event
    | None => lines = []
    end.
Proof.
  unfold write, SyncTrigger. destruct (Output l) as [o|].
  - eexists. split; [reflexivity|]. eexists. split; reflexivity.
  - exists []. now rewrite app_nil_r.
Qed.

Lemma perform_accounted (op : Recording) (l : Logger) (tr : Trace) :
  exists l' lines,
    perform op (Some l) tr = Ret (Some l', tr ++ lines) /\ accounted [op] l l' lines.
Proof.
  assert (Hone : forall l1 m color body,
             Output l1 = Output l ->
             exists lines,
               write l1 m color body tr = tr ++ lines /\
               match Output l with
               | Some o =>
                   List.length lines = 1%nat /\
                   Forall (fun x => fst x = o /\ msg_flag (snd x) = Event) lines
               | None => lines = []
               end).
  { intros l1 m color body Ho.
    destruct (write_appends l1 m color body tr) as (lines & Hw & Hl).
    exists lines. split; [exact Hw|]. rewrite Ho in Hl.
    destruct (Output l) as [o|]; [|exact Hl].
    destruct Hl as (msg & -> & Hflag). split; [reflexivity|].
    constructor; [split; [reflexivity|exact Hflag] | constructor]. }
  destruct op as [m body args|m body args|m e]; cbn [perform Applyf Skipf Error bind].
  - destruct (Hone (set_applied l) m ColorLightGreen (Sprintf body args) eq_refl)
      as (lines & -> & Hl).
    exists (set_applied l), lines. split; [reflexivity|].
    unfold accounted. cbn. auto 10.
  - destruct (Hone (set_skipped l) m ColorGreen (Sprintf body args) eq_refl)
      as (lines & -> & Hl).
    exists (set_skipped l), lines. split; [reflexivity|].
    unfold accounted. cbn. auto 10.
  - destruct (Hone (set_failed l) m ColorRed (ErrorString e) eq_refl)
      as (lines & -> & Hl).
    exists (set_failed l), lines. split; [reflexivity|].
    unfold accounted. cbn. auto 10.
Qed.

Lemma incremented_count_cons (f : Recording -> bool) op ops (x : Z) :
  incremented (count f (op :: ops)) x
  = incremented (count f ops) (incremented (count f [op]) x).
Proof.
  unfold count. cbn [filter]. destruct (f op); cbn [List.length];
    [rewrite incremented_succ|]; reflexivity.
Qed.

Lemma accounted_cons (op : Recording) (ops : list Recording) (l l1 l2 : Logger)
    (lines1 lines2 : Trace) :
  accounted [op] l l1 lines1 -> accounted ops l1 l2 lines2 ->
  accounted (op :: ops) l l2 (lines1 ++ lines2).
Proof.
  intros (Ho1 & Hp1 & Ha1 & Hs1 & Hf1 & Hr1 & Hl1)
         (Ho2 & Hp2 & Ha2 & Hs2 & Hf2 & Hr2 & Hl2).
  unfold accounted. rewrite Ho2, Hp2, Ha2, Hs2, Hf2, Hr2, Ha1, Hs1, Hf1, Hr1.
  rewrite Ho1 in Hl2. clear Ha2 Hs2 Hf2 Hr2 Ha1 Hs1 Hf1 Hr1.
  repeat split; try assumption.
  - symmetry. apply incremented_count_cons.
  - symmetry. apply incremented_count_cons.
  - symmetry. apply incremented_count_cons.
  - cbn [map]. change (last [resultWord op] (Result l)) with (resultWord op).
    symmetry. apply last_cons.
  - destruct (Output l) as [o|].
    + destruct Hl1 as [Hn1 Hall1]. destruct Hl2 as [Hn2 Hall2]. split.
      * rewrite length_app, Hn1, Hn2. reflexivity.
      * apply Forall_app. auto.
    + now subst.
Qed.

Lemma performAll_accounted (ops : list Recording) :
  forall (l : Logger) (tr : Trace),
  exists l' lines,
    performAll ops (Some l) tr = Ret (Some l', tr ++ lines) /\ accounted ops l l' lines.
Proof.
  induction ops as [|op ops IH]; intros l tr.
  - exists l, []. cbn. rewrite app_nil_r. split; [reflexivity|].
    unfold accounted. cbn. repeat split. destruct (Output l); auto.
  - destruct (perform_accounted op l tr) as (l1 & lines1 & Hp & Hacc1).
    destruct (IH l1 (tr ++ lines1)) as (l2 & lines2 & Hall & Hacc2).
    exists l2, (lines1 ++ lines2). cbn [performAll]. rewrite Hp. cbn [bind].
    rewrite Hall, app_assoc. split; [reflexivity|].
    eapply accounted_cons; eassumption.
Qed.

(** X1.  Any sequence of recording operations on a Logger never
    panics and keeps its [Output] and [Phase]; each counter has been
    incremented once per operation of its kind, [Result] is the word of
    the last operation, and the trace has grown by one line per
    operation, each flagged [db.migration] and sent to the Logger's own
    output (by no line at all without [Output]). *)
Theorem recording_run_accounted (ops : list Recording) (l : Logger) (tr : Trace) :
  exists l' lines,
    performAll ops (Some l) tr = Ret (Some l', tr ++ lines) /\
    Output l' = Output l /\ Phase l' = Phase l /\
    applied l' = incremented (count isApplyf ops) (applied l) /\
    skipped l' = incremented (count isSkipf ops) (skipped l) /\
    failed l' = incremented (count isError ops) (failed l) /\
    Result l' = last (map resultWord ops) (Result l) /\
    match Output l with
    | Some o =>
        List.length lines = List.length ops /\
        Forall (fun x => fst x = o /\ msg_flag (snd x) = Event) lines
    | None => lines = []
    end.
Proof. apply performAll_accounted. Qed.

(** X2.  A Logger made by [NewLogger] reports every operation: after
    any sequence of recording operations its three counters are the
    numbers of [Applyf], [Skipf] and [Error] calls (as Go ints), which
    add up to the number of lines it wrote to [log]. *)
Theorem NewLogger_counts_every_call (log : OutputLogger) (ops : list Recording)
    (tr : Trace) :
  exists l' lines,
    performAll ops (Some (NewLogger log)) tr = Ret (Some l', tr ++ lines) /\
    applied l' = int_wrap (Z.of_nat (count isApplyf ops)) /\
    skipped l' = int_wrap (Z.of_nat (count isSkipf ops)) /\
    failed l' = int_wrap (Z.of_nat (count isError ops)) /\
    List.length lines = (count isApplyf ops + count isSkipf ops + count isError ops)%nat /\
    Forall (fun x => fst x = log) lines.
Proof.
  destruct (performAll_accounted ops (NewLogger log) tr)
    as (l' & lines & Hrun & _ & _ & Ha & Hs & Hf & _ & Hn & Hall).
  exists l', lines. split; [exact Hrun|].
  cbn [NewLogger applied skipped failed] in Ha, Hs, Hf.
  rewrite Ha, Hs, Hf, !incremented_zero. repeat split.
  - rewrite Hn. unfold count. clear.
    induction ops as [|[m b a|m b a|m e] ops IH]; cbn; lia.
  - eapply Forall_impl; [|exact Hall]. cbn. tauto.
Qed.

End RunFacts.

(** ** The breadcrumb, level by level *)

Section BreadcrumbFacts.
Context {E : Env}.

Lemma chain_ancestors (m : Migration) : chain m = m :: ancestors m.
Proof. destruct m as [label [p|]]; reflexivity. Qed.

Lemma breadcrumbLabels_child (label : string) (p : Migration) :
  breadcrumbLabels (migration label (Some p))
  = breadcrumbLabels p ++ (if nonEmpty (Label p) then [Label p] else []).
Proof.
  unfold breadcrumbLabels. cbn [ancestors Parent]. rewrite chain_ancestors.
  cbn [map filter]. destruct (nonEmpty (Label p)); cbn [rev];
    [reflexivity | now rewrite app_nil_r].
Qed.

Lemma separated_leading_space (o : OutputLogger) (labels : list string) :
  labels <> [] ->
  exists rest, separated (stackSeparator o) labels = String " " rest.
Proof.
  destruct labels as [|label labels]; [congruence|]. intros _.
  cbn [separated]. unfold stackSeparator at 1. cbn [String.append]. eauto.
Qed.

Lemma renderStack_empty_iff (o : OutputLogger) (m : Migration) (color : AnsiColor) :
  nonEmpty (renderStack o m color) = false <-> breadcrumbLabels m = [].
Proof.
  rewrite renderStack_separated. split.
  - destruct (breadcrumbLabels m) as [|label labels] eqn:Hl; [reflexivity|].
    rewrite separated_concat. unfold stackSeparator at 1. cbn [String.append].
    rewrite TrimPrefix_space.
    rewrite !append_assoc. unfold nonEmpty.
    destruct (colorize o ">" ColorLightBlack); cbn; discriminate.
  - intros ->. reflexivity.
Qed.

(** X3.  One level of nesting adds one segment: under a Group [p] with
    a label, the breadcrumb is [p]'s own breadcrumb followed by the
    separator and [p]'s label (the mark and the label alone when [p]
    has no labelled ancestor); under a Group without label it is [p]'s
    breadcrumb unchanged. *)
Theorem renderStack_nested (o : OutputLogger) (label : string) (p : Migration)
    (color : AnsiColor) :
  renderStack o (migration label (Some p)) color =
    let outer := renderStack o p color in
    if nonEmpty (Label p) then
      if nonEmpty outer then outer +s+ stackSeparator o +s+ Label p
      else colorize o ">" ColorLightBlack +s+ " " +s+ Label p
    else outer.
Proof.
  cbn zeta. rewrite (renderStack_separated o (migration label (Some p))).
  rewrite breadcrumbLabels_child.
  destruct (nonEmpty (Label p)) eqn:Hp.
  - destruct (nonEmpty (renderStack o p color)) eqn:Hout.
    + rewrite separated_app. cbn [separated]. rewrite append_empty_r.
      rewrite renderStack_separated.
      destruct (breadcrumbLabels p) as [|l0 ls] eqn:Hl.
      * apply Bool.not_false_iff_true in Hout. exfalso. apply Hout.
        apply renderStack_empty_iff. exact Hl.
      * destruct (separated_leading_space o (l0 :: ls)) as [rest Hrest];
          [discriminate|].
        rewrite Hrest. cbn [String.append]. now rewrite !TrimPrefix_space.
    + apply renderStack_empty_iff in Hout. rewrite Hout. cbn [app separated].
      rewrite append_empty_r. unfold stackSeparator. cbn [String.append].
      rewrite TrimPrefix_space. now rewrite append_assoc.
  - rewrite app_nil_r. symmetry. apply renderStack_separated.
Qed.

End BreadcrumbFacts.

(** ** Statements, piece by piece *)

Section StatementsMoreFacts.
Context {E : Env}.

(** X4.  Running the statements of [xs ++ ys] is running [xs] and
    then, when [xs] went through without error, [ys] on the connection
    [xs] left; an error in [xs] is returned with nothing of [ys]
    executed. *)
Theorem Invoke_app (xs ys : bodyStatements) (c : Connection) (tx : Tx) :
  Invoke (xs ++ ys) c tx =
    match Invoke xs c tx with
    | (c1, Some e) => (c1, Some e)
    | (c1, None) => Invoke ys c1 tx
    end.
Proof.
  revert c. induction xs as [|x xs IH]; intros c; cbn [app Invoke].
  - reflexivity.
  - destruct (ExecInTx x tx [] c) as [c1 [e|]]; [reflexivity | apply IH].
Qed.

(** X5.  [Statements] of a single statement and [Statement] of that
    statement are the same action: the same call to the driver, the
    same connection left, the same error returned. *)
Theorem Statements_single_is_Statement (statement : string) (c : Connection) (tx : Tx) :
  Invoke (BodyStatements [statement]) c tx = Statement statement c tx.
Proof.
  unfold BodyStatements, Statement. cbn [Invoke].
  destruct (ExecInTx statement tx [] c) as [c1 [e|]]; reflexivity.
Qed.

End StatementsMoreFacts.

(** ** Package spiffy: the address of the database *)

Lemma length_eqb_0 (s : string) :
  (String.length s =? 0)%nat = String.eqb s EmptyString.
Proof. destruct s; reflexivity. Qed.

Lemma ltb_0_length (s : string) :
  (0 <? String.length s)%nat = negb (String.eqb s EmptyString).
Proof. destruct s; reflexivity. Qed.

Lemma eqb_empty_false (s : string) :
  s <> EmptyString -> String.eqb s EmptyString = false.
Proof. intros H. now apply String.eqb_neq. Qed.

Section ConnectionFacts.
Import spiffy.
Context {P : Platform}.

Lemma envVarWithDefault_orDefault (varName defaultValue : string) :
  envVarWithDefault varName defaultValue = orDefault (Getenv varName) defaultValue.
Proof.
  unfold envVarWithDefault, orDefault. rewrite ltb_0_length.
  destruct (String.eqb (Getenv varName) EmptyString); reflexivity.
Qed.

Lemma orDefault_set (value defaultValue : string) :
  String.eqb defaultValue EmptyString = false ->
  String.eqb (orDefault value defaultValue) EmptyString = false.
Proof.
  unfold orDefault. intros Hd.
  destruct (String.eqb value EmptyString) eqn:Hv; assumption.
Qed.

(** The address [CreatePostgresConnectionString] builds when [DSN] is
    empty and [Database] is not. *)
Lemma CreatePostgresConnectionString_built (dbc : Connection) :
  String.eqb (DSN dbc) EmptyString = true ->
  String.eqb (Database dbc) EmptyString = false ->
  CreatePostgresConnectionString dbc
  = ("postgres://" +s+ userinfo (Username dbc) (Password dbc) +s+ Host dbc
     +s+ (if String.eqb (Port dbc) EmptyString then EmptyString else ":" +s+ Port dbc)
     +s+ "/" +s+ Database dbc +s+ "?sslmode="
     +s+ (if String.eqb (SSLMode dbc) EmptyString then "disable"
          else QueryEscape (SSLMode dbc)), None).
Proof.
  intros Hdsn Hdb. unfold CreatePostgresConnectionString, userinfo.
  rewrite !length_eqb_0, !ltb_0_length, Hdsn, Hdb. cbn [negb].
  destruct (String.eqb (Username dbc) EmptyString);
    destruct (String.eqb (Password dbc) EmptyString);
    destruct (String.eqb (SSLMode dbc) EmptyString);
    destruct (String.eqb (Port dbc) EmptyString);
    cbn [negb]; repeat first [rewrite append_assoc | progress cbn [String.append]];
    reflexivity.
Qed.

Lemma NewFromDSN_address_aux (dsn : string) :
  CreatePostgresConnectionString (NewFromDSN dsn)
  = if String.eqb dsn EmptyString
    then (EmptyString, Some (ExceptionNew nameRequired))
    else (dsn, None).
Proof.
  unfold CreatePostgresConnectionString. cbn [DSN Database NewFromDSN New].
  rewrite length_eqb_0. destruct (String.eqb dsn EmptyString); reflexivity.
Qed.

(** X6.  [CreatePostgresConnectionString] fails exactly when both
    [DSN] and [Database] are empty; it then returns the empty string
    with the error that asks for [DB_NAME]. *)
Theorem CreatePostgresConnectionString_error (dbc : Connection) :
  if String.eqb (DSN dbc) EmptyString && String.eqb (Database dbc) EmptyString
  then CreatePostgresConnectionString dbc
       = (EmptyString, Some (ExceptionNew nameRequired))
  else snd (CreatePostgresConnectionString dbc) = None.
Proof.
  destruct (String.eqb (DSN dbc) EmptyString) eqn:Hdsn; cbn [andb].
  - destruct (String.eqb (Database dbc) EmptyString) eqn:Hdb.
    + unfold CreatePostgresConnectionString.
      now rewrite !length_eqb_0, Hdsn, Hdb.
    + now rewrite CreatePostgresConnectionString_built.
  - unfold CreatePostgresConnectionString. now rewrite length_eqb_0, Hdsn.
Qed.

(** X7.  Without user name the password is never part of the address:
    two Connections that differ in [Password] only, with [Username]
    empty, give the same result. *)
Theorem password_needs_username (dsn host port database schema password password'
    sslMode : string) (conn : option SqlDB) (cache : bool) :
  CreatePostgresConnectionString
    {| DSN := dsn; Host := host; Port := port; Database := database;
       Schema := schema; Username := EmptyString; Password := password;
       SSLMode := sslMode; Connection_ := conn; useStatementCache := cache |}
  = CreatePostgresConnectionString
      {| DSN := dsn; Host := host; Port := port; Database := database;
         Schema := schema; Username := EmptyString; Password := password';
         SSLMode := sslMode; Connection_ := conn; useStatementCache := cache |}.
Proof. reflexivity. Qed.

(** X8.  [NewFromDSN] round trip: the address of [NewFromDSN(dsn)] is
    [dsn] itself, untouched; with an empty [dsn] there is no address
    and the error asks for [DB_NAME]. *)
Theorem NewFromDSN_address (dsn : string) :
  CreatePostgresConnectionString (NewFromDSN dsn)
  = if String.eqb dsn EmptyString
    then (EmptyString, Some (ExceptionNew nameRequired))
    else (dsn, None).
Proof. apply NewFromDSN_address_aux. Qed.

(** X9.  Whatever the environment, the Connection of [NewFromEnv] has
    an address: [DATABASE_URL] as it is when it is set, and otherwise
    the one built from [DB_USER], [DB_PASSWORD], [DB_HOST] (default
    localhost), [DB_NAME] (default postgres) and [DB_SSLMODE] (default
    disable), never with a port. *)
Theorem NewFromEnv_address :
  CreatePostgresConnectionString NewFromEnv
  = (if String.eqb (Getenv "DATABASE_URL") EmptyString
     then "postgres://" +s+ userinfo (Getenv "DB_USER") (Getenv "DB_PASSWORD")
          +s+ orDefault (Getenv "DB_HOST") "localhost"
          +s+ "/" +s+ orDefault (Getenv "DB_NAME") "postgres"
          +s+ "?sslmode=" +s+ QueryEscape (orDefault (Getenv "DB_SSLMODE") "disable")
     else Getenv "DATABASE_URL", None).
Proof.
  unfold NewFromEnv. rewrite ltb_0_length.
  destruct (String.eqb (Getenv "DATABASE_URL") EmptyString) eqn:Hurl; cbn [negb].
  - rewrite CreatePostgresConnectionString_built;
      cbn [DSN Database Username Password Host Port SSLMode New];
      rewrite ?envVarWithDefault_orDefault; try reflexivity.
    + rewrite (orDefault_set (Getenv "DB_SSLMODE") "disable" eq_refl). reflexivity.
    + apply orDefault_set. reflexivity.
  - rewrite NewFromDSN_address_aux, Hurl. reflexivity.
Qed.

End ConnectionFacts.

(** ** Package spiffy: constructors and opening *)

Section OpenFacts.
Import spiffy.
Context {P : Platform}.

(** X10.  The constructors with parameters are one family:
    [NewWithHost] and [NewWithPassword] are [NewWithSSLMode] with
    sslmode disable.  The Connection they make is not open, and it has
    an address exactly when the database name is not empty: no port,
    the user part as given, the sslmode escaped. *)
Theorem NewWithSSLMode_address (host dbName username password sslMode : string) :
  NewWithHost host dbName
  = NewWithSSLMode host dbName EmptyString EmptyString "disable" /\
  NewWithPassword host dbName username password
  = NewWithSSLMode host dbName username password "disable" /\
  Connection_ (NewWithSSLMode host dbName username password sslMode) = None /\
  CreatePostgresConnectionString
    (NewWithSSLMode host dbName username password sslMode)
  = if String.eqb dbName EmptyString
    then (EmptyString, Some (ExceptionNew nameRequired))
    else ("postgres://" +s+ userinfo username password +s+ host +s+ "/" +s+ dbName
          +s+ "?sslmode="
          +s+ (if String.eqb sslMode EmptyString then "disable"
               else QueryEscape sslMode), None).
Proof.
  repeat (split; [reflexivity|]).
  destruct (String.eqb dbName EmptyString) eqn:Hdb.
  - unfold CreatePostgresConnectionString.
    cbn [DSN Database NewWithSSLMode New String.length Nat.eqb negb].
    now rewrite length_eqb_0, Hdb.
  - rewrite CreatePostgresConnectionString_built; [reflexivity|reflexivity|exact Hdb].
Qed.

Lemma openNewSQLConnection_opened (dbc : Connection) (s s' : Sql)
    (newConn : option SqlDB) :
  (forall e, ExceptionWrap (Some e) <> None) ->
  openNewSQLConnection dbc s = (s', (newConn, None)) ->
  exists dbConn, newConn = Some dbConn.
Proof.
  intros Hwrap. unfold openNewSQLConnection.
  destruct (CreatePostgresConnectionString dbc) as [connStr [e|]];
    [intros H; inversion H|].
  destruct (SqlOpen "postgres" connStr s) as [s1 [dbConn|e]].
  - destruct (if (0 <? String.length (Schema dbc))%nat
              then SqlExec dbConn _ s1 else (s1, None)) as [s2 [e|]].
    + intros H. inversion H as [[Hs Hn Hw]]. now apply Hwrap in Hw.
    + destruct (SqlExec dbConn "select 'ok!'" s2) as [s3 [e|]]; intros H.
      * inversion H as [[Hs Hn Hw]]. now apply Hwrap in Hw.
      * inversion H; subst. eauto.
  - intros H. inversion H as [[Hs Hn Hw]]. now apply Hwrap in Hw.
Qed.

(** X11.  Let wrapping an error give an error.  Then [Open] opens at
    most once: when it returns the receiver, the receiver is open and
    opening it again changes nothing and asks nothing of the driver;
    when it returns nil, the receiver is as it was, still closed. *)
Theorem Open_once (dbc : Connection) (s : Sql) :
  (forall e, ExceptionWrap (Some e) <> None) ->
  match Open dbc s with
  | (dbc1, s1, (true, _)) =>
      (exists dbConn, Connection_ dbc1 = Some dbConn) /\
      Open dbc1 s1 = (dbc1, s1, (true, None))
  | (dbc1, _, (false, _)) => dbc1 = dbc /\ Connection_ dbc = None
  end.
Proof.
  intros Hwrap. unfold Open. destruct (Connection_ dbc) as [dbConn|] eqn:Hc.
  - rewrite Hc. eauto.
  - destruct (openNewSQLConnection dbc s) as [s1 [newConn [e|]]] eqn:Hopen.
    + auto.
    + destruct (openNewSQLConnection_opened _ _ _ _ Hwrap Hopen) as [dbConn ->].
      cbn [Connection_ setConnection]. eauto.
Qed.

(** X12.  A Connection with neither [DSN] nor [Database] is never
    taken to the driver: [Open] returns nil and the wrapped error that
    asks for [DB_NAME], and the driver's world is untouched. *)
Theorem Open_without_name (host port schema username password sslMode : string)
    (cache : bool) (s : Sql) :
  let dbc :=
    {| DSN := EmptyString; Host := host; Port := port; Database := EmptyString;
       Schema := schema; Username := username; Password := password;
       SSLMode := sslMode; Connection_ := None; useStatementCache := cache |} in
  Open dbc s = (dbc, s, (false, ExceptionWrap (Some (ExceptionNew nameRequired)))).
Proof. reflexivity. Qed.

End OpenFacts.

(** ** Package spiffy: the Config *)

Section ConfigFacts.
Import spiffy.
Import spiffy.Cfg.
Context {P : Platform}.

Lemma coalesced (value defaultValue : string) :
  coalesces -> CoalesceString value defaultValue [] = orDefault value defaultValue.
Proof.
  intros [Hset Hunset]. unfold orDefault.
  destruct (String.eqb_spec value EmptyString) as [->|Hne]; auto.
Qed.

(** X13.  Let [Coalesce.String] keep a value that is set and fall back
    to the default.  Then each [With...] setter is read back by its
    getter: the value when it is not empty, and otherwise the default
    of the field (localhost, 5432, postgres, disable; none for the DSN,
    the schema, the user name and the password). *)
Theorem With_then_Get (c : Config) (v : string) :
  coalesces ->
  GetDSN (WithDSN c v) [] = v /\
  GetHost (WithHost c v) [] = orDefault v "localhost" /\
  GetPort (WithPort c v) [] = orDefault v "5432" /\
  GetDatabase (WithDatabase c v) [] = orDefault v "postgres" /\
  GetSchema (WithSchema c v) [] = v /\
  GetUsername (WithUsername c v) [] = v /\
  GetPassword (WithPassword c v) [] = v /\
  GetSSLMode (WithSSLMode c v) [] = orDefault v "disable".
Proof.
  intros H.
  assert (Hid : orDefault v EmptyString = v).
  { unfold orDefault. destruct (String.eqb_spec v EmptyString); congruence. }
  unfold GetDSN, GetHost, GetPort, GetDatabase, GetSchema, GetUsername,
    GetPassword, GetSSLMode; cbn; rewrite !(coalesced _ _ H), !Hid.
  repeat split.
Qed.

Lemma CreateDSN_defaults_aux (c : Config) :
  coalesces ->
  DSN c = EmptyString ->
  CreateDSN c
  = "postgres://" +s+ userinfo (Username c) (Password c)
    +s+ orDefault (Host c) "localhost" +s+ ":" +s+ orDefault (Port c) "5432"
    +s+ "/" +s+ orDefault (Database c) "postgres"
    +s+ "?sslmode=" +s+ QueryEscape (orDefault (SSLMode c) "disable").
Proof.
  intros H Hdsn. unfold CreateDSN, GetDSN, GetHost, GetPort, GetDatabase,
    GetUsername, GetPassword, GetSSLMode.
  rewrite !(coalesced _ _ H), Hdsn.
  unfold DefaultSSLMode, SSLModeDisable, DefaultPort, DefaultHost, DefaultDatabase.
  rewrite !ltb_0_length.
  rewrite (orDefault_set (SSLMode c) "disable" eq_refl).
  rewrite (orDefault_set (Port c) "5432" eq_refl).
  change (orDefault EmptyString EmptyString) with EmptyString.
  cbn [String.length Nat.eqb negb]. unfold userinfo.
  assert (Hid : forall v, String.eqb (orDefault v EmptyString) EmptyString
                          = String.eqb v EmptyString).
  { intros v. unfold orDefault. destruct (String.eqb v EmptyString) eqn:Hv; auto. }
  assert (Hid' : forall v, String.eqb v EmptyString = false ->
                           orDefault v EmptyString = v).
  { intros v Hv. unfold orDefault. now rewrite Hv. }
  rewrite !Hid.
  destruct (String.eqb (Username c) EmptyString) eqn:Hu;
    destruct (String.eqb (Password c) EmptyString) eqn:Hp;
    cbn [negb]; rewrite ?(Hid' _ Hu), ?(Hid' _ Hp);
    repeat first [rewrite append_assoc | progress cbn [String.append]];
    reflexivity.
Qed.

(** X14.  Under the same reading of [Coalesce.String], a Config
    without DSN always has an address, with a host, a port and a
    database in it: the defaults localhost, 5432, postgres and disable
    stand in for what is not set. *)
Theorem CreateDSN_defaults (c : Config) :
  coalesces ->
  DSN c = EmptyString ->
  CreateDSN c
  = "postgres://" +s+ userinfo (Username c) (Password c)
    +s+ orDefault (Host c) "localhost" +s+ ":" +s+ orDefault (Port c) "5432"
    +s+ "/" +s+ orDefault (Database c) "postgres"
    +s+ "?sslmode=" +s+ QueryEscape (orDefault (SSLMode c) "disable").
Proof. apply CreateDSN_defaults_aux. Qed.

(** X15.  Under the same reading of [Coalesce.String], the Config and
    the Connection build the same address from the same parameters
    whenever the DSN is given, or host, port, database and sslmode are
    all set; the Connection then never fails. *)
Theorem CreateDSN_agrees (c : Config) :
  coalesces ->
  DSN c <> EmptyString \/
  (Host c <> EmptyString /\ Port c <> EmptyString /\
   Database c <> EmptyString /\ SSLMode c <> EmptyString) ->
  CreatePostgresConnectionString (parameters c) = (CreateDSN c, None).
Proof.
  intros H Hset.
  destruct (String.eqb_spec (DSN c) EmptyString) as [Hdsn|Hdsn].
  - destruct Hset as [Hset|(Hh & Hp & Hd & Hs)]; [congruence|].
    rewrite (CreateDSN_defaults_aux c H Hdsn).
    rewrite CreatePostgresConnectionString_built;
      cbn [parameters spiffy.DSN spiffy.Database spiffy.Host spiffy.Port
           spiffy.Username spiffy.Password spiffy.SSLMode].
    + unfold orDefault.
      rewrite (eqb_empty_false _ Hh), (eqb_empty_false _ Hp),
        (eqb_empty_false _ Hd), (eqb_empty_false _ Hs).
      repeat first [rewrite append_assoc | progress cbn [String.append]].
      reflexivity.
    + rewrite Hdsn. reflexivity.
    + now apply eqb_empty_false.
  - unfold CreatePostgresConnectionString, CreateDSN, GetDSN.
    destruct H as [Hkeep _]. rewrite (Hkeep _ _ _ Hdsn).
    cbn [parameters spiffy.DSN]. rewrite length_eqb_0.
    now rewrite (eqb_empty_false _ Hdsn).
Qed.

End ConfigFacts.

(** ** Package spiffy: the listener of diagnostics events *)

Section EventFacts.
Import spiffy.
Context {P : Platform}.

(** X16.  The listener reads the query and the elapsed time from the
    first two values of the state and panics without them; the error
    and the label are optional: absent or nil, they reach the action as
    nil and the empty label; values after the fourth are ignored; a
    third value that is neither nil nor an error is a panic. *)
Theorem NewEventListener_reads_state {A : Type}
    (action : string -> Z -> option Err -> string -> A) :
  NewEventListener action [] = Panic /\
  (forall v, NewEventListener action [v] = Panic) /\
  (forall v rest, NewEventListener action (VNil :: v :: rest) = Panic) /\
  (forall q d,
      NewEventListener action [VString q; VDuration d]
      = Ret (action q d None EmptyString)) /\
  (forall q d err,
      NewEventListener action [VString q; VDuration d; ofError err]
      = Ret (action q d err EmptyString)) /\
  (forall q d err label extra,
      NewEventListener action
        (VString q :: VDuration d :: ofError err :: VString label :: extra)
      = Ret (action q d err label)) /\
  (forall q d err extra,
      NewEventListener action
        (VString q :: VDuration d :: ofError err :: VNil :: extra)
      = Ret (action q d err EmptyString)) /\
  (forall q d rest,
      NewEventListener action (VString q :: VDuration d :: VOther :: rest) = Panic).
Proof.
  repeat split; intros; try reflexivity;
    try (destruct v; reflexivity);
    destruct err; reflexivity.
Qed.

End EventFacts.

(** ** Package spiffy at work on the local platform *)

Lemma Local_coalesces (environ : list (string * string)) :
  @spiffy.Cfg.coalesces (Local.platform environ).
Proof.
  split.
  - intros value defaultValue inherited Hne. cbn. unfold Local.coalesce.
    destruct value; [congruence | reflexivity].
  - reflexivity.
Qed.

Example address_from_the_environment :
  @spiffy.CreatePostgresConnectionString
    (Local.platform [("DB_USER", "web"); ("DB_PORT", "5433"); ("DB_NAME", "app")])
    spiffy.NewFromEnv
  = ("postgres://web@localhost/app?sslmode=disable", None).
Proof. reflexivity. Qed.

Module LocalFacts.
#[local] Existing Instance Local.bare.

(** A Connection to a named database opens, and opens once. *)
Lemma Open_once_witness :
  match spiffy.Open (spiffy.NewWithHost "db" "app") Local.idle with
  | (dbc1, s1, (true, _)) =>
      (exists dbConn, spiffy.Connection_ dbc1 = Some dbConn) /\
      spiffy.Open dbc1 s1 = (dbc1, s1, (true, None))
  | (dbc1, _, (false, _)) =>
      dbc1 = spiffy.NewWithHost "db" "app"
      /\ spiffy.Connection_ (spiffy.NewWithHost "db" "app") = None
  end.
Proof.
  apply (Open_once (spiffy.NewWithHost "db" "app") Local.idle).
  intros e. discriminate.
Defined.

Lemma With_then_Get_witness :
  let c := Local.fullConfig in
  spiffy.Cfg.GetDSN (spiffy.Cfg.WithDSN c "") [] = "" /\
  spiffy.Cfg.GetHost (spiffy.Cfg.WithHost c "") [] = spiffy.orDefault "" "localhost" /\
  spiffy.Cfg.GetPort (spiffy.Cfg.WithPort c "") [] = spiffy.orDefault "" "5432" /\
  spiffy.Cfg.GetDatabase (spiffy.Cfg.WithDatabase c "") []
  = spiffy.orDefault "" "postgres" /\
  spiffy.Cfg.GetSchema (spiffy.Cfg.WithSchema c "") [] = "" /\
  spiffy.Cfg.GetUsername (spiffy.Cfg.WithUsername c "") [] = "" /\
  spiffy.Cfg.GetPassword (spiffy.Cfg.WithPassword c "") [] = "" /\
  spiffy.Cfg.GetSSLMode (spiffy.Cfg.WithSSLMode c "") [] = spiffy.orDefault "" "disable".
Proof.
  exact (With_then_Get Local.fullConfig "" (Local_coalesces [])).
Defined.

Lemma CreateDSN_defaults_witness :
  spiffy.Cfg.CreateDSN spiffy.Cfg.NewConfig
  = "postgres://localhost:5432/postgres?sslmode=disable".
Proof.
  exact (CreateDSN_defaults spiffy.Cfg.NewConfig (Local_coalesces []) eq_refl).
Defined.

Lemma CreateDSN_agrees_witness :
  spiffy.CreatePostgresConnectionString (spiffy.Cfg.parameters Local.fullConfig)
  = (spiffy.Cfg.CreateDSN Local.fullConfig, None).
Proof.
  apply (CreateDSN_agrees Local.fullConfig (Local_coalesces [])).
  right. repeat split; discriminate.
Defined.

End LocalFacts.
